(** * CastIron2: the feed screen's view-session tracker and the interaction sink

    A shallow embedding of [src/components/FeedScreen.tsx] (the [FeedScreen]
    and [ActionBar] components) and of the restaurants library
    ([fetchRestaurants], [recordInteraction]).

    React state ([useState]) and refs ([useRef]) of one mounted screen are
    the fields of a [World]; every handler is a computation in a small
    state-and-exception monad over it.  [Date.now()] reads the [clock] field,
    which the driver of a handler sets before it runs the handler; [at_time]
    runs a whole handler in one instant, and the handlers named [_reads] take
    the two readings of a logging handler apart.  [loadRestaurants] is the
    async function run without interruption; [loadRestaurants_start] and
    [loadRestaurants_settle] are the two steps in which it writes the state.
    The handlers read the [restaurants] of the state; those named [_of] read
    the [restaurants] an earlier render captured.
    A call to [recordInteraction] is not awaited by the screen; the screen's
    side of it is the append of the call to the [interactions] log. *)

From Stdlib Require Import ZArith List Ascii String Bool Lia.
Import ListNotations.
Local Open Scope Z_scope.

(** ** JavaScript values the code relies on *)

Module JS.

(** What a [throw] (or a rejected promise) carries: an [Error] object with
    its message, or any other value ([e instanceof Error] is false). *)
Inductive Thrown : Type :=
| ErrorObj (message : string)
| NonError.

(** [arr[i]]: [undefined] below zero and from the length on. *)
Definition index {A : Type} (arr : list A) (i : Z) : option A :=
  if i <? 0 then None else nth_error arr (Z.to_nat i).

(** Truthiness of a value that is an object or [undefined]/[null]. *)
Definition truthy {A : Type} (v : option A) : bool :=
  match v with Some _ => true | None => false end.

(** Truthiness of a string that may be absent: the empty string is falsy. *)
Definition truthy_string (v : option string) : bool :=
  match v with
  | Some s => negb (String.eqb s EmptyString)
  | None => false
  end.

(** [v ?? d] *)
Definition nullish {A : Type} (v : option A) (d : A) : A :=
  match v with Some a => a | None => d end.

(** The outcome of awaiting a promise: rejected or fulfilled. *)
Definition Settled (A : Type) : Type := (Thrown + A)%type.

End JS.

(** ** Data *)

(** Modelled from the spec: the [Restaurant] type of [../types], which is not
    among the sources.  It is an item "identified by a stable id" with display
    attributes; the fields are those the screen reads (the numeric [rating] is
    display-only and left out). *)
Record Restaurant : Type := {
  id : string;
  name : string;
  cuisine : option string;
  address : string;
}.

Inductive Action : Type := like | skip | unlike.

(** The arguments of one call [recordInteraction(placeId, action, timeSpentMs)]. *)
Record Interaction : Type := {
  placeId : string;
  action : Action;
  timeSpentMs : Z;
}.

(** An entry of [viewableItems]: [{ index: number | null }]. *)
Record ViewToken : Type := { index : option Z }.

(** ** The mounted screen *)

Record World : Type := {
  restaurants : list Restaurant;    (* useState<Restaurant[]>([]) *)
  loading : bool;                   (* useState(true) *)
  error : option string;            (* useState<string | null>(null) *)
  viewStartRef : Z;                 (* useRef<number>(Date.now()) *)
  currentIndexRef : Z;              (* useRef(0) *)
  clock : Z;                        (* the value Date.now() returns *)
  interactions : list Interaction;  (* calls to recordInteraction, oldest first *)
}.

(** The screen as the first render leaves it, at time [t]. *)
Definition mount (t : Z) : World :=
  {| restaurants := []; loading := true; error := None;
     viewStartRef := t; currentIndexRef := 0;
     clock := t; interactions := [] |}.

Definition with_restaurants (v : list Restaurant) (w : World) : World :=
  {| restaurants := v; loading := loading w; error := error w;
     viewStartRef := viewStartRef w; currentIndexRef := currentIndexRef w;
     clock := clock w; interactions := interactions w |}.

Definition with_loading (v : bool) (w : World) : World :=
  {| restaurants := restaurants w; loading := v; error := error w;
     viewStartRef := viewStartRef w; currentIndexRef := currentIndexRef w;
     clock := clock w; interactions := interactions w |}.

Definition with_error (v : option string) (w : World) : World :=
  {| restaurants := restaurants w; loading := loading w; error := v;
     viewStartRef := viewStartRef w; currentIndexRef := currentIndexRef w;
     clock := clock w; interactions := interactions w |}.

Definition with_viewStart (v : Z) (w : World) : World :=
  {| restaurants := restaurants w; loading := loading w; error := error w;
     viewStartRef := v; currentIndexRef := currentIndexRef w;
     clock := clock w; interactions := interactions w |}.

Definition with_currentIndex (v : Z) (w : World) : World :=
  {| restaurants := restaurants w; loading := loading w; error := error w;
     viewStartRef := viewStartRef w; currentIndexRef := v;
     clock := clock w; interactions := interactions w |}.

Definition with_clock (v : Z) (w : World) : World :=
  {| restaurants := restaurants w; loading := loading w; error := error w;
     viewStartRef := viewStartRef w; currentIndexRef := currentIndexRef w;
     clock := v; interactions := interactions w |}.

Definition with_interactions (v : list Interaction) (w : World) : World :=
  {| restaurants := restaurants w; loading := loading w; error := error w;
     viewStartRef := viewStartRef w; currentIndexRef := currentIndexRef w;
     clock := clock w; interactions := v |}.

(** ** The monad of handlers: state, and exceptions that keep the state *)

Inductive Result (A : Type) : Type :=
| Ok (a : A) (w : World)
| Threw (e : JS.Thrown) (w : World).
Arguments Ok {A} a w.
Arguments Threw {A} e w.

Definition M (A : Type) : Type := World -> Result A.

Definition ret {A : Type} (a : A) : M A := fun w => Ok a w.

Definition bind {A B : Type} (m : M A) (k : A -> M B) : M B :=
  fun w => match m w with
           | Ok a w' => k a w'
           | Threw e w' => Threw e w'
           end.

Definition throw {A : Type} (e : JS.Thrown) : M A := fun w => Threw e w.

Definition gets {A : Type} (f : World -> A) : M A := fun w => Ok (f w) w.

Definition modify (f : World -> World) : M unit := fun w => Ok tt (f w).

Declare Scope handler_scope.
Delimit Scope handler_scope with handler.
Notation "x <- m ;; k" := (bind m (fun x => k))
  (at level 61, m at next level, right associativity) : handler_scope.
Notation "m ;; k" := (bind m (fun _ => k))
  (at level 61, right associativity) : handler_scope.
Local Open Scope handler_scope.

(** [try { body } catch (e) { handler }] *)
Definition try_catch {A : Type} (body : M A) (handler : JS.Thrown -> M A) : M A :=
  fun w => match body w with
           | Ok a w' => Ok a w'
           | Threw e w' => handler e w'
           end.

(** [try { body } finally { fin }]: [fin] runs on both exits; what it throws
    replaces the outcome of [body]. *)
Definition try_finally {A : Type} (body : M A) (fin : M unit) : M A :=
  fun w => match body w with
           | Ok a w' =>
               match fin w' with
               | Ok _ w'' => Ok a w''
               | Threw e w'' => Threw e w''
               end
           | Threw e w' =>
               match fin w' with
               | Ok _ w'' => Threw e w''
               | Threw e' w'' => Threw e' w''
               end
           end.

(** [await p] for a promise whose settlement is known. *)
Definition await {A : Type} (p : JS.Settled A) : M A :=
  match p with
  | inl e => throw e
  | inr a => ret a
  end.

(** [Date.now()] *)
Definition Date_now : M Z := gets clock.

(** [restaurant.id]: reading a property of [undefined] is a TypeError. *)
Definition prop_id (restaurant : option Restaurant) : M string :=
  match restaurant with
  | Some r => ret (id r)
  | None => throw (JS.ErrorObj "Cannot read properties of undefined (reading 'id')")
  end.

(** The un-awaited call [recordInteraction(placeId, action, timeSpentMs)]. *)
Definition call_recordInteraction (p : string) (a : Action) (ms : Z) : M unit :=
  modify (fun w =>
    with_interactions
      (interactions w ++ [{| placeId := p; action := a; timeSpentMs := ms |}]) w).

Definition setRestaurants (v : list Restaurant) : M unit := modify (with_restaurants v).
Definition setLoading (v : bool) : M unit := modify (with_loading v).
Definition setError (v : option string) : M unit := modify (with_error v).
Definition set_viewStartRef (v : Z) : M unit := modify (with_viewStart v).
Definition set_currentIndexRef (v : Z) : M unit := modify (with_currentIndex v).

(** ** The restaurants library: [fetchRestaurants] and [recordInteraction] *)

Module Lib.

Record User : Type := { user_id : string }.

Record Session : Type := {
  access_token : option string;
  user : option User;
}.

(** A row of the table [restaurant_interactions]. *)
Record Row : Type := {
  row_user_id : string;
  place_id : string;
  row_action : Action;
  time_spent_ms : Z;
}.

(** The Supabase client: the session [auth.getSession()] yields, and the
    rows inserted so far, oldest first. *)
Record Supabase : Type := {
  session : option Session;
  restaurant_interactions : list Row;
}.

Definition insert (r : Row) (sb : Supabase) : Supabase :=
  {| session := session sb;
     restaurant_interactions := restaurant_interactions sb ++ [r] |}.

(** The POST request [fetchRestaurants] sends; JSON body [{lat, lng, radius}]. *)
Record Request : Type := {
  url : string;
  authorization : option string;
  body : Z * Z * Z;
}.

(** A parsed response body that is an object: the fields the code reads. *)
Record Body : Type := {
  body_error : option string;
  body_restaurants : option (list Restaurant);
}.

Definition empty_body : Body :=
  {| body_error := None; body_restaurants := None |}.

(** [json] is what [response.json()] settles to: rejected when the body does
    not parse, [None] when it parses to the JSON value [null]. *)
Record Response : Type := {
  ok : bool;
  json : JS.Settled (option Body);
}.

(** The TypeError of reading a property of [null]; the wording is the
    engine's. *)
Definition TypeError_of_null (prop : string) : JS.Thrown :=
  JS.ErrorObj
    (String.append "Cannot read property '" (String.append prop "' of null")).

Definition Network : Type := Request -> JS.Settled Response.

(** [process.env.EXPO_PUBLIC_SUPABASE_URL ?? ''] *)
Definition getSupabaseUrl (env_url : option string) : string :=
  JS.nullish env_url EmptyString.

Definition bearer (s : option Session) : option string :=
  match s with
  | Some s' =>
      if JS.truthy_string (access_token s')
      then Some (String.append "Bearer " (JS.nullish (access_token s') EmptyString))
      else None
  | None => None
  end.

Definition fetchRestaurants (env_url : option string) (sb : Supabase)
    (net : Network) (lat lng : Z) (radius : Z) : JS.Settled (list Restaurant) :=
  let url := String.append (getSupabaseUrl env_url) "/functions/v1/get-restaurants" in
  match net {| url := url; authorization := bearer (session sb);
               body := (lat, lng, radius) |} with
  | inl e => inl e
  | inr response =>
      if negb (ok response) then
        let err := match json response with
                   | inl _ => Some empty_body
                   | inr v => v
                   end in
        match err with
        | None => inl (TypeError_of_null "error")
        | Some b =>
            inl (JS.ErrorObj
                   (JS.nullish (body_error b) "Failed to fetch restaurants"%string))
        end
      else
        match json response with
        | inl e => inl e
        | inr None => inl (TypeError_of_null "restaurants")
        | inr (Some b) => inr (JS.nullish (body_restaurants b) [])
        end
  end.

(** The default of the parameter [radius]. *)
Definition default_radius : Z := 3000.

(** [session?.user] *)
Definition session_user (s : option Session) : option User :=
  match s with
  | Some s' => user s'
  | None => None
  end.

(** [session.user.id]: a TypeError when [session] or [user] is absent. *)
Definition prop_user_id (s : option Session) : JS.Settled string :=
  match session_user s with
  | Some u => inr (user_id u)
  | None => inl (JS.ErrorObj "Cannot read properties of null (reading 'id')")
  end.

Definition recordInteraction (placeId : string) (action : Action)
    (timeSpentMs : Z) (sb : Supabase) : JS.Settled Supabase :=
  let s := session sb in
  if negb (JS.truthy (session_user s)) then inr sb
  else
    match prop_user_id s with
    | inl e => inl e
    | inr uid =>
        inr (insert {| row_user_id := uid; place_id := placeId;
                       row_action := action; time_spent_ms := timeSpentMs |} sb)
    end.

End Lib.

(** ** [FeedScreen]

    The callbacks are re-created by [useCallback] whenever [restaurants]
    changes, so a handler reads the [restaurants] of the state it runs in. *)

Inductive PermissionStatus : Type := granted | denied | undetermined.

Definition PermissionStatus_eqb (a b : PermissionStatus) : bool :=
  match a, b with
  | granted, granted | denied, denied | undetermined, undetermined => true
  | _, _ => false
  end.

(** [location.coords]; the coordinates are only handed on to the request. *)
Record Coords : Type := { latitude : Z; longitude : Z }.

(** What the collaborators of one load answer. *)
Record Env : Type := {
  requestForegroundPermissionsAsync : JS.Settled PermissionStatus;
  getCurrentPositionAsync : JS.Settled Coords;
  EXPO_PUBLIC_SUPABASE_URL : option string;
  supabase : Lib.Supabase;
  network : Lib.Network;
}.

Definition fetchRestaurants (env : Env) (lat lng : Z) : JS.Settled (list Restaurant) :=
  Lib.fetchRestaurants (EXPO_PUBLIC_SUPABASE_URL env) (supabase env) (network env)
    lat lng Lib.default_radius.

Definition catch_message (e : JS.Thrown) : string :=
  match e with
  | JS.ErrorObj m => m
  | JS.NonError => "Failed to load restaurants"
  end.

Definition loadRestaurants (env : Env) : M unit :=
  try_finally
    (try_catch
       (setLoading true ;;
        setError None ;;
        status <- await (requestForegroundPermissionsAsync env) ;;
        if negb (PermissionStatus_eqb status granted) then
          setError (Some "Location permission is required to find nearby restaurants."%string) ;;
          setRestaurants []
        else
          location <- await (getCurrentPositionAsync env) ;;
          data <- await (fetchRestaurants env (latitude location) (longitude location)) ;;
          setRestaurants data)
       (fun e =>
          setError (Some (catch_message e)) ;;
          setRestaurants []))
    (setLoading false).

Definition recordViewEnd (index : Z) (action : Action) : M unit :=
  restaurant <- gets (fun w => JS.index (restaurants w) index) ;;
  if negb (JS.truthy restaurant) then ret tt
  else
    now <- Date_now ;;
    viewStart <- gets viewStartRef ;;
    let timeSpentMs := now - viewStart in
    rid <- prop_id restaurant ;;
    call_recordInteraction rid action timeSpentMs.

Definition handleViewableItemsChanged (viewableItems : list ViewToken) : M unit :=
  let visible := JS.index viewableItems 0 in
  match visible with
  | None => ret tt
  | Some v =>
      match index v with
      | None => ret tt
      | Some newIndex =>
          prevIndex <- gets currentIndexRef ;;
          if negb (prevIndex =? newIndex) then
            recordViewEnd prevIndex skip ;;
            set_currentIndexRef newIndex ;;
            now <- Date_now ;;
            set_viewStartRef now
          else ret tt
      end
  end.

Definition handleLike (index : Z) : M unit :=
  recordViewEnd index like ;;
  now <- Date_now ;;
  set_viewStartRef now.

Definition handleUnlike (index : Z) : M unit :=
  recordViewEnd index unlike ;;
  now <- Date_now ;;
  set_viewStartRef now.

(** ** [ActionBar] *)

(** The steps of an [Animated.sequence]; [toValue] in hundredths. *)
Inductive Animation : Type :=
| timing (toValue duration : Z)
| spring (toValue friction tension : Z).

(** The state of one mounted action bar: [liked] and the animation sequences
    started on [scaleAnim], oldest first.  [handleToggleLike] is re-created
    when [liked] changes, so each tap reads the [liked] the tap before it set. *)
Record ActionBar : Type := {
  liked : bool;
  scaleAnim : list (list Animation);
}.

Definition ActionBar_mount : ActionBar := {| liked := false; scaleAnim := [] |}.

Definition setLiked (v : bool) (bar : ActionBar) : ActionBar :=
  {| liked := v; scaleAnim := scaleAnim bar |}.

Definition start (s : list Animation) (bar : ActionBar) : ActionBar :=
  {| liked := liked bar; scaleAnim := scaleAnim bar ++ [s] |}.

Definition handleToggleLike (onLike onUnlike : M unit) (bar : ActionBar) : M ActionBar :=
  if liked bar then
    let bar := setLiked false bar in
    onUnlike ;;
    ret bar
  else
    let bar := setLiked true bar in
    onLike ;;
    ret (start [timing 140 120; spring 115 3 200] bar).

(** The props [renderItem] gives the card of [index]. *)
Definition card_toggle (index : Z) : ActionBar -> M ActionBar :=
  handleToggleLike (handleLike index) (handleUnlike index).

(** ** The operations of the spec, as the event source drives them *)

(** Run a handler at the instant [t]. *)
Definition at_time {A : Type} (t : Z) (m : M A) : M A :=
  fun w => m (with_clock t w).

(** The viewport reports one dominant index, or none. *)
Definition onDominantItemChanged (newIndex : option Z) : M unit :=
  handleViewableItemsChanged [{| index := newIndex |}].

(** The two actions a tap can ask for. *)
Inductive UserAction : Type := tap_like | tap_unlike.

Definition action_of (u : UserAction) : Action :=
  match u with
  | tap_like => like
  | tap_unlike => unlike
  end.

Definition onUserAction (index : Z) (u : UserAction) : M unit :=
  match u with
  | tap_like => handleLike index
  | tap_unlike => handleUnlike index
  end.

(** A dominant-index report: the instant it arrives and the index. *)
Definition Report : Type := (Z * Z)%type.

Fixpoint run_reports (rs : list Report) : M unit :=
  match rs with
  | [] => ret tt
  | (t, i) :: rs' =>
      at_time t (onDominantItemChanged (Some i)) ;;
      run_reports rs'
  end.

(** Two taps on the like control of the card of [index], at [t1] then [t2]. *)
Definition toggle_twice (index t1 t2 : Z) (bar : ActionBar) : M ActionBar :=
  bar1 <- at_time t1 (card_toggle index bar) ;;
  at_time t2 (card_toggle index bar1).

(** The events a computation has added to the log, when it returns. *)
Definition emitted {A : Type} (w : World) (r : Result A) : option (list Interaction) :=
  match r with
  | Ok _ w' => Some (skipn (List.length (interactions w)) (interactions w'))
  | Threw _ _ => None
  end.

(** The skip event that ends the viewing of [r] after [ms] milliseconds. *)
Definition skip_of (r : Restaurant) (ms : Z) : Interaction :=
  {| placeId := id r; action := skip; timeSpentMs := ms |}.

(** One skip per adjacent pair of reports, [prev] being the report before
    the first of [rs]. *)
Fixpoint adjacent_skips (feed : list Restaurant) (prev : Report) (rs : list Report)
    : list Interaction :=
  match rs with
  | [] => []
  | cur :: rs' =>
      match JS.index feed (snd prev) with
      | Some r => [skip_of r (fst cur - fst prev)]
      | None => []
      end ++ adjacent_skips feed cur rs'
  end.

(** No report repeats the index of the one before it; [prev] is the index
    before the first. *)
Fixpoint no_repeat (prev : Z) (rs : list Report) : Prop :=
  match rs with
  | [] => True
  | cur :: rs' => prev <> snd cur /\ no_repeat (snd cur) rs'
  end.

Definition valid_index (feed : list Restaurant) (i : Z) : Prop :=
  JS.index feed i <> None.

Definition valid_report (feed : list Restaurant) (r : Report) : Prop :=
  valid_index feed (snd r).

(** The load is terminal: permission is not granted, or an awaited call rejects. *)
Inductive load_fails (env : Env) : Prop :=
| permission_rejected (e : JS.Thrown) :
    requestForegroundPermissionsAsync env = inl e -> load_fails env
| permission_not_granted (st : PermissionStatus) :
    requestForegroundPermissionsAsync env = inr st -> st <> granted -> load_fails env
| position_rejected (e : JS.Thrown) :
    requestForegroundPermissionsAsync env = inr granted ->
    getCurrentPositionAsync env = inl e -> load_fails env
| fetch_rejected (c : Coords) (e : JS.Thrown) :
    requestForegroundPermissionsAsync env = inr granted ->
    getCurrentPositionAsync env = inr c ->
    fetchRestaurants env (latitude c) (longitude c) = inl e -> load_fails env.

(** The load resolves with [data]. *)
Inductive load_succeeds (env : Env) (data : list Restaurant) : Prop :=
| load_ok (c : Coords) :
    requestForegroundPermissionsAsync env = inr granted ->
    getCurrentPositionAsync env = inr c ->
    fetchRestaurants env (latitude c) (longitude c) = inr data ->
    load_succeeds env data.

(** The event [recordViewEnd] hands to the sink for the item [r]. *)
Definition event_of (w : World) (r : Restaurant) (a : Action) : Interaction :=
  {| placeId := id r; action := a; timeSpentMs := clock w - viewStartRef w |}.

Definition log (e : Interaction) (w : World) : World :=
  with_interactions (interactions w ++ [e]) w.

(** ** Sample data *)

Module Sample.

Definition r0 : Restaurant :=
  {| id := "place-0"; name := "Skillet"; cuisine := Some "american"%string;
     address := "1 Main St" |}.
Definition r1 : Restaurant :=
  {| id := "place-1"; name := "Noodle Bar"; cuisine := None;
     address := "2 Main St" |}.
Definition r2 : Restaurant :=
  {| id := "place-2"; name := "Taqueria"; cuisine := Some "mexican"%string;
     address := "3 Main St" |}.

Definition feed : list Restaurant := [r0; r1; r2].

(** The screen mounted at time 0 with [feed] on display. *)
Definition loaded : World :=
  with_loading false (with_restaurants feed (mount 0)).

Definition server_ok : Lib.Network :=
  fun _ => inr {| Lib.ok := true;
                  Lib.json := inr (Some {| Lib.body_error := None;
                                           Lib.body_restaurants := Some feed |}) |}.

Definition server_down : Lib.Network :=
  fun _ => inr {| Lib.ok := false;
                  Lib.json := inr (Some {| Lib.body_error := Some "upstream unavailable"%string;
                                           Lib.body_restaurants := None |}) |}.

(** A server that refuses with an empty error text. *)
Definition server_mute : Lib.Network :=
  fun _ => inr {| Lib.ok := false;
                  Lib.json := inr (Some {| Lib.body_error := Some EmptyString;
                                           Lib.body_restaurants := None |}) |}.

(** A server that refuses with the body [null]. *)
Definition server_null : Lib.Network :=
  fun _ => inr {| Lib.ok := false; Lib.json := inr None |}.

Definition signed_in : Lib.Supabase :=
  {| Lib.session := Some {| Lib.access_token := Some "tok"%string;
                            Lib.user := Some {| Lib.user_id := "user-7" |} |};
     Lib.restaurant_interactions := [] |}.

Definition signed_out : Lib.Supabase :=
  {| Lib.session := None; Lib.restaurant_interactions := [] |}.

Definition env_ok : Env :=
  {| requestForegroundPermissionsAsync := inr granted;
     getCurrentPositionAsync := inr {| latitude := 40; longitude := -74 |};
     EXPO_PUBLIC_SUPABASE_URL := Some "https://example.supabase.co"%string;
     supabase := signed_in;
     network := server_ok |}.

Definition env_denied : Env :=
  {| requestForegroundPermissionsAsync := inr denied;
     getCurrentPositionAsync := inr {| latitude := 40; longitude := -74 |};
     EXPO_PUBLIC_SUPABASE_URL := None;
     supabase := signed_out;
     network := server_ok |}.

Definition env_down : Env :=
  {| requestForegroundPermissionsAsync := inr granted;
     getCurrentPositionAsync := inr {| latitude := 40; longitude := -74 |};
     EXPO_PUBLIC_SUPABASE_URL := None;
     supabase := signed_out;
     network := server_down |}.

Definition env_mute : Env :=
  {| requestForegroundPermissionsAsync := inr granted;
     getCurrentPositionAsync := inr {| latitude := 40; longitude := -74 |};
     EXPO_PUBLIC_SUPABASE_URL := None;
     supabase := signed_out;
     network := server_mute |}.

End Sample.

(** ** The rest of the screen: sharing, card labels, what is rendered *)

Definition getMapsUrl (placeId : string) : string :=
  String.append "https://www.google.com/maps/search/?api=1&query_place_id=" placeId.

(** The argument of [Share.share]. *)
Record ShareContent : Type := {
  message : string;
  share_url : string;
  title : string;
}.

(** The line feed of the escape in the message template. *)
Definition LF : string := String (Ascii.ascii_of_nat 10) EmptyString.

(** [handleShare]: the content it hands to [Share.share]. *)
Definition handleShare (restaurant : Restaurant) : ShareContent :=
  let url := getMapsUrl (id restaurant) in
  {| message :=
       String.append "Check out "
         (String.append (name restaurant)
            (String.append "!" (String.append LF url)));
     share_url := url;
     title := name restaurant |}.

(** [s.replace(/_/g, ' ')] *)
Fixpoint replace_underscores (s : string) : string :=
  match s with
  | EmptyString => EmptyString
  | String c s' =>
      String (if Ascii.eqb c "_"%char then " "%char else c) (replace_underscores s')
  end.

(** The [cuisine] line of [RestaurantCard]:
    [restaurant.cuisine?.replace(/_/g, ' ') ?? 'Restaurant']. *)
Definition cuisine_label (restaurant : Restaurant) : string :=
  JS.nullish (option_map replace_underscores (cuisine restaurant)) "Restaurant"%string.

(** What [FeedScreen] returns: the spinner, the error text with its Retry,
    the "No restaurants found nearby." text, or the list. *)
Inductive Rendered : Type :=
| LoadingView
| ErrorView (errorText : string)
| EmptyView
| FeedView (data : list Restaurant).

Definition render (w : World) : Rendered :=
  if loading w && (Z.of_nat (List.length (restaurants w)) =? 0) then LoadingView
  else if JS.truthy_string (error w) && (Z.of_nat (List.length (restaurants w)) =? 0)
  then ErrorView (JS.nullish (error w) EmptyString)
  else if Z.of_nat (List.length (restaurants w)) =? 0 then EmptyView
  else FeedView (restaurants w).

(** A card as [renderItem] builds it: the restaurant shown and the index its
    [onLike] and [onUnlike] close over. *)
Record Card : Type := {
  card_restaurant : Restaurant;
  card_index : Z;
}.

Definition renderItem (item : Restaurant) (index : Z) : Card :=
  {| card_restaurant := item; card_index := index |}.

(** The cards of a [FlatList] over [data]: [renderItem] at every entry with
    its position, counted from [first]. *)
Fixpoint FlatList_cards (first : Z) (data : list Restaurant) : list Card :=
  match data with
  | [] => []
  | item :: data' => renderItem item first :: FlatList_cards (first + 1) data'
  end.

(** The cards of the rendered screen; none unless the list is shown. *)
Definition cards (w : World) : list Card :=
  match render w with
  | FeedView data => FlatList_cards 0 data
  | _ => []
  end.

(** ** Streams of events *)

(** What the event source delivers: a dominant-index report or a tap on the
    like control of the card of [index], each at its instant. *)
Inductive Event : Type :=
| Dominant (t : Z) (newIndex : option Z)
| Tap (t : Z) (index : Z) (u : UserAction).

Definition event_time (e : Event) : Z :=
  match e with
  | Dominant t _ => t
  | Tap t _ _ => t
  end.

Definition deliver (e : Event) : M unit :=
  match e with
  | Dominant t newIndex => at_time t (onDominantItemChanged newIndex)
  | Tap t index u => at_time t (onUserAction index u)
  end.

Fixpoint run_events (es : list Event) : M unit :=
  match es with
  | [] => ret tt
  | e :: es' => deliver e ;; run_events es'
  end.

(** The events arrive in time order, none before [t0]. *)
Fixpoint in_time_order (t0 : Z) (es : list Event) : Prop :=
  match es with
  | [] => True
  | e :: es' => t0 <= event_time e /\ in_time_order (event_time e) es'
  end.

Definition total_dwell (evs : list Interaction) : Z :=
  fold_right (fun e acc => timeSpentMs e + acc) 0 evs.

(** Taps on the like control of the card of [index], one per instant of [ts]. *)
Fixpoint run_toggles (index : Z) (ts : list Z) (bar : ActionBar) : M ActionBar :=
  match ts with
  | [] => ret bar
  | t :: ts' =>
      bar1 <- at_time t (card_toggle index bar) ;;
      run_toggles index ts' bar1
  end.

(** The actions [n] toggles ask for, starting from [liked = l]. *)
Fixpoint toggle_actions (l : bool) (n : nat) : list Action :=
  match n with
  | O => []
  | S n' => (if l then unlike else like) :: toggle_actions (negb l) n'
  end.

Definition is_like (e : Interaction) : bool :=
  match action e with
  | like => true
  | _ => false
  end.

(** The sink receives the logged calls one after the other, in call order. *)
Fixpoint record_all (calls : list Interaction) (sb : Lib.Supabase)
    : JS.Settled Lib.Supabase :=
  match calls with
  | [] => inr sb
  | c :: calls' =>
      match Lib.recordInteraction (placeId c) (action c) (timeSpentMs c) sb with
      | inl e => inl e
      | inr sb' => record_all calls' sb'
      end
  end.

Definition row_of (uid : string) (c : Interaction) : Lib.Row :=
  {| Lib.row_user_id := uid; Lib.place_id := placeId c;
     Lib.row_action := action c; Lib.time_spent_ms := timeSpentMs c |}.

(** The one request [fetchRestaurants] sends. *)
Definition request_of (env : Env) (lat lng : Z) : Lib.Request :=
  {| Lib.url := String.append (Lib.getSupabaseUrl (EXPO_PUBLIC_SUPABASE_URL env))
                  "/functions/v1/get-restaurants";
     Lib.authorization := Lib.bearer (Lib.session (supabase env));
     Lib.body := (lat, lng, 3000) |}.

Definition with_network (net : Lib.Network) (env : Env) : Env :=
  {| requestForegroundPermissionsAsync := requestForegroundPermissionsAsync env;
     getCurrentPositionAsync := getCurrentPositionAsync env;
     EXPO_PUBLIC_SUPABASE_URL := EXPO_PUBLIC_SUPABASE_URL env;
     supabase := supabase env;
     network := net |}.

(** ** The load as the scheduler runs it

    [loadRestaurants] is an async function.  It writes state in two
    synchronous segments only: up to its first [await] it sets [loading] and
    clears [error]; the segment in which it settles (after the permission
    answer when that is a refusal or a rejection, after a rejected position,
    or after the fetch) does every other write, then the [finally] block.
    The segments between them write nothing, and what they await does not
    depend on the screen, so other handlers and other loads can run between
    the two steps below, and only there. *)

Definition loadRestaurants_start : M unit :=
  setLoading true ;;
  setError None.

Definition loadRestaurants_settle (env : Env) : M unit :=
  try_finally
    (try_catch
       (status <- await (requestForegroundPermissionsAsync env) ;;
        if negb (PermissionStatus_eqb status granted) then
          setError (Some "Location permission is required to find nearby restaurants."%string) ;;
          setRestaurants []
        else
          location <- await (getCurrentPositionAsync env) ;;
          data <- await (fetchRestaurants env (latitude location) (longitude location)) ;;
          setRestaurants data)
       (fun e =>
          setError (Some (catch_message e)) ;;
          setRestaurants []))
    (setLoading false).

(** ** Handlers of an earlier render

    [recordViewEnd] is re-created by [useCallback] when [restaurants]
    changes, and [handleLike], [handleUnlike] and [renderItem] with it: the
    callbacks of a card read the [restaurants] of the render that built the
    card, while the two refs are shared by all renders. *)

Definition recordViewEnd_of (captured : list Restaurant) (index : Z) (action : Action)
    : M unit :=
  let restaurant := JS.index captured index in
  if negb (JS.truthy restaurant) then ret tt
  else
    now <- Date_now ;;
    viewStart <- gets viewStartRef ;;
    let timeSpentMs := now - viewStart in
    rid <- prop_id restaurant ;;
    call_recordInteraction rid action timeSpentMs.

Definition handleLike_of (captured : list Restaurant) (index : Z) : M unit :=
  recordViewEnd_of captured index like ;;
  now <- Date_now ;;
  set_viewStartRef now.

Definition handleUnlike_of (captured : list Restaurant) (index : Z) : M unit :=
  recordViewEnd_of captured index unlike ;;
  now <- Date_now ;;
  set_viewStartRef now.

(** The like control of a card that the render over [captured] built. *)
Definition card_toggle_of (captured : list Restaurant) (c : Card)
    : ActionBar -> M ActionBar :=
  handleToggleLike (handleLike_of captured (card_index c))
                   (handleUnlike_of captured (card_index c)).

(** ** Handlers with both clock readings

    A handler that logs reads [Date.now()] twice: in [recordViewEnd] for the
    dwell ([now1]) and again for the new [viewStartRef] ([now2]). *)

Definition reset_viewStart : M unit :=
  now <- Date_now ;;
  set_viewStartRef now.

Definition handleLike_reads (now1 now2 : Z) (index : Z) : M unit :=
  at_time now1 (recordViewEnd index like) ;;
  at_time now2 reset_viewStart.

Definition handleUnlike_reads (now1 now2 : Z) (index : Z) : M unit :=
  at_time now1 (recordViewEnd index unlike) ;;
  at_time now2 reset_viewStart.

Definition handleViewableItemsChanged_reads (now1 now2 : Z)
    (viewableItems : list ViewToken) : M unit :=
  let visible := JS.index viewableItems 0 in
  match visible with
  | None => ret tt
  | Some v =>
      match index v with
      | None => ret tt
      | Some newIndex =>
          prevIndex <- gets currentIndexRef ;;
          if negb (prevIndex =? newIndex) then
            at_time now1 (recordViewEnd prevIndex skip) ;;
            set_currentIndexRef newIndex ;;
            at_time now2 reset_viewStart
          else ret tt
      end
  end.

(** An event with the two readings its handler takes. *)
Inductive TimedEvent : Type :=
| DominantAt (now1 now2 : Z) (newIndex : option Z)
| TapAt (now1 now2 : Z) (index : Z) (u : UserAction).

Definition deliver_reads (e : TimedEvent) : M unit :=
  match e with
  | DominantAt now1 now2 newIndex =>
      handleViewableItemsChanged_reads now1 now2 [{| index := newIndex |}]
  | TapAt now1 now2 index tap_like => handleLike_reads now1 now2 index
  | TapAt now1 now2 index tap_unlike => handleUnlike_reads now1 now2 index
  end.

Fixpoint run_timed (es : list TimedEvent) : M unit :=
  match es with
  | [] => ret tt
  | e :: es' => deliver_reads e ;; run_timed es'
  end.

(** The time between the two readings of an event. *)
Definition tick (e : TimedEvent) : Z :=
  match e with
  | DominantAt now1 now2 _ => now2 - now1
  | TapAt now1 now2 _ _ => now2 - now1
  end.

Definition ticks (es : list TimedEvent) : Z :=
  fold_right (fun e acc => tick e + acc) 0 es.

(** The indices named have items, and the clock does not run backwards
    inside the handler. *)
Definition timed_valid (feed : list Restaurant) (e : TimedEvent) : Prop :=
  0 <= tick e
  /\ match e with
     | DominantAt _ _ (Some i) => valid_index feed i
     | DominantAt _ _ None => True
     | TapAt _ _ i _ => valid_index feed i
     end.

(** ** Runs on the sample feed *)

Example run_scroll :
  emitted Sample.loaded (run_reports [(100, 1); (250, 2)] Sample.loaded)
  = Some [skip_of Sample.r0 100; skip_of Sample.r1 150].
Proof. reflexivity. Qed.

(** [Sample.loaded] is what the first load leaves when it resolves at once. *)
Example run_load_ok :
  loadRestaurants Sample.env_ok (mount 0) = Ok tt Sample.loaded.
Proof. reflexivity. Qed.

Example run_load_down :
  loadRestaurants Sample.env_down (mount 0)
  = Ok tt (with_loading false (with_error (Some "upstream unavailable"%string) (mount 0))).
Proof. reflexivity. Qed.

Example run_toggle_twice :
  emitted Sample.loaded (toggle_twice 0 500 900 ActionBar_mount Sample.loaded)
  = Some [ {| placeId := "place-0"; action := like; timeSpentMs := 500 |};
           {| placeId := "place-0"; action := unlike; timeSpentMs := 400 |} ].
Proof. reflexivity. Qed.

(** ** What [recordViewEnd] and the handlers compute *)

Lemma recordViewEnd_item (w : World) (i : Z) (a : Action) (r : Restaurant) :
  JS.index (restaurants w) i = Some r ->
  recordViewEnd i a w = Ok tt (log (event_of w r a) w).
Proof.
  intros Hi. unfold recordViewEnd, bind, gets. rewrite Hi. reflexivity.
Qed.

Lemma recordViewEnd_no_item (w : World) (i : Z) (a : Action) :
  JS.index (restaurants w) i = None ->
  recordViewEnd i a w = Ok tt w.
Proof.
  intros Hi. unfold recordViewEnd, bind, gets. rewrite Hi. reflexivity.
Qed.

(** [recordViewEnd] never throws: the guard covers the property read. *)
Lemma recordViewEnd_total (w : World) (i : Z) (a : Action) :
  recordViewEnd i a w
  = Ok tt match JS.index (restaurants w) i with
          | Some r => log (event_of w r a) w
          | None => w
          end.
Proof.
  destruct (JS.index (restaurants w) i) as [r|] eqn:Hi.
  - now apply recordViewEnd_item.
  - now apply recordViewEnd_no_item.
Qed.

Lemma onUserAction_unfold (i : Z) (u : UserAction) (w : World) :
  onUserAction i u w
  = bind (recordViewEnd i (action_of u))
         (fun _ => bind Date_now set_viewStartRef) w.
Proof. destruct u; reflexivity. Qed.

Lemma onUserAction_item (w : World) (i : Z) (u : UserAction) (r : Restaurant) :
  JS.index (restaurants w) i = Some r ->
  onUserAction i u w
  = Ok tt (with_viewStart (clock w) (log (event_of w r (action_of u)) w)).
Proof.
  intros Hi. rewrite onUserAction_unfold. unfold bind.
  rewrite (recordViewEnd_item _ _ _ _ Hi). reflexivity.
Qed.

Lemma onUserAction_no_item (w : World) (i : Z) (u : UserAction) :
  JS.index (restaurants w) i = None ->
  onUserAction i u w = Ok tt (with_viewStart (clock w) w).
Proof.
  intros Hi. rewrite onUserAction_unfold. unfold bind.
  rewrite (recordViewEnd_no_item _ _ _ Hi). reflexivity.
Qed.

Lemma report_same (w : World) (rest : list ViewToken) :
  handleViewableItemsChanged ({| index := Some (currentIndexRef w) |} :: rest) w
  = Ok tt w.
Proof.
  unfold handleViewableItemsChanged, bind, gets. cbn.
  now rewrite Z.eqb_refl.
Qed.

Lemma report_change (w : World) (i : Z) (rest : list ViewToken) :
  i <> currentIndexRef w ->
  handleViewableItemsChanged ({| index := Some i |} :: rest) w
  = Ok tt (with_viewStart (clock w)
             (with_currentIndex i
                match JS.index (restaurants w) (currentIndexRef w) with
                | Some r => log (event_of w r skip) w
                | None => w
                end)).
Proof.
  intros Hne. unfold handleViewableItemsChanged, bind, gets.
  cbn -[recordViewEnd Z.eqb].
  destruct (Z.eqb_spec (currentIndexRef w) i) as [E|_]; [congruence|].
  cbn -[recordViewEnd]. rewrite recordViewEnd_total.
  destruct (JS.index (restaurants w) (currentIndexRef w)); reflexivity.
Qed.

Lemma emitted_nothing {A : Type} (a : A) (w : World) :
  emitted w (Ok a w) = Some [].
Proof. unfold emitted. now rewrite skipn_all. Qed.

Lemma at_time_run {A : Type} (t : Z) (m : M A) (w : World) :
  at_time t m w = m (with_clock t w).
Proof. reflexivity. Qed.

(** ** The tracker under duplicate reports and user actions *)

(** C6: for every state, a dominant-index report that equals the current
    index returns the state as it was (so [currentIndexRef], [viewStartRef]
    and [restaurants] are unchanged) and emits no event; this holds for the
    single-token report and for any [viewableItems] whose first entry carries
    the current index. *)
Theorem duplicate_report_is_noop (w : World) :
  onDominantItemChanged (Some (currentIndexRef w)) w = Ok tt w
  /\ emitted w (onDominantItemChanged (Some (currentIndexRef w)) w) = Some []
  /\ forall rest,
       handleViewableItemsChanged ({| index := Some (currentIndexRef w) |} :: rest) w
       = Ok tt w.
Proof.
  unfold onDominantItemChanged. rewrite report_same.
  repeat split.
  - apply emitted_nothing.
  - intros rest. apply report_same.
Qed.

(** C8: for every index and for both actions, [onUserAction] returns
    normally and leaves [currentIndexRef] and [restaurants] (and the
    [loading] and [error] flags) as they were; only the clock reference and
    the event log can differ. *)
Theorem user_action_frame (i : Z) (u : UserAction) (w : World) :
  exists w',
    onUserAction i u w = Ok tt w'
    /\ currentIndexRef w' = currentIndexRef w
    /\ restaurants w' = restaurants w
    /\ loading w' = loading w
    /\ error w' = error w.
Proof.
  destruct (JS.index (restaurants w) i) as [r|] eqn:Hi.
  - rewrite (onUserAction_item _ _ _ _ Hi). eexists. split; [reflexivity|].
    cbn. auto.
  - rewrite (onUserAction_no_item _ _ _ Hi). eexists. split; [reflexivity|].
    cbn. auto.
Qed.

(** C10: when [onUserAction] ([handleLike] or [handleUnlike]) gets an index
    with no item in the feed, it emits no event, yet it sets [viewStartRef]
    to now; whenever now differs from the old [viewStartRef] the state after
    the call is not the state before it. *)
Theorem user_action_without_item_resets_clock (i : Z) (u : UserAction) (w : World) :
  JS.index (restaurants w) i = None ->
  exists w',
    onUserAction i u w = Ok tt w'
    /\ interactions w' = interactions w
    /\ viewStartRef w' = clock w
    /\ (clock w <> viewStartRef w -> w' <> w).
Proof.
  intros Hi. rewrite (onUserAction_no_item _ _ _ Hi).
  eexists. split; [reflexivity|]. cbn. repeat split.
  intros Hne E. apply Hne. now rewrite <- E.
Qed.

Lemma user_action_without_item_resets_clock_witness :
  JS.index (restaurants (with_clock 900 Sample.loaded)) 7 = None
  /\ exists w',
       onUserAction 7 tap_like (with_clock 900 Sample.loaded) = Ok tt w'
       /\ interactions w' = interactions (with_clock 900 Sample.loaded)
       /\ viewStartRef w' = clock (with_clock 900 Sample.loaded)
       /\ (clock (with_clock 900 Sample.loaded)
             <> viewStartRef (with_clock 900 Sample.loaded)
           -> w' <> with_clock 900 Sample.loaded).
Proof.
  split; [reflexivity|].
  apply (user_action_without_item_resets_clock 7 tap_like (with_clock 900 Sample.loaded)).
  reflexivity.
Defined.

(** C4, as stated, fails.  The first item of a feed is first shown when
    the load resolves, here 1000 ms after the mount; liked 500 ms and
    scrolled away from 800 ms after that, it logs a like with dwell 1500,
    counted from the mount, then a skip with dwell 300.  And for an index
    with no item in the feed [onUserAction] logs no event at all. *)
Lemma like_dwell_counterexample :
  (exists w1 w2 w3,
     at_time 1000 (loadRestaurants Sample.env_ok) (mount 0) = Ok tt w1
     /\ render w1 = FeedView Sample.feed
     /\ at_time (1000 + 500) (onUserAction 0 tap_like) w1 = Ok tt w2
     /\ at_time (1000 + 800) (onDominantItemChanged (Some 1)) w2 = Ok tt w3
     /\ interactions w3
        = [{| placeId := id Sample.r0; action := like; timeSpentMs := 1500 |};
           {| placeId := id Sample.r0; action := skip; timeSpentMs := 300 |}]
     /\ 1500 <> 500)
  /\ (exists w',
        at_time 100 (onUserAction 5 tap_like) Sample.loaded = Ok tt w'
        /\ interactions w' = interactions Sample.loaded
        /\ List.length (interactions w')
           <> S (List.length (interactions Sample.loaded))).
Proof.
  split.
  - do 3 eexists. do 4 (split; [reflexivity|]). split; [reflexivity | lia].
  - eexists. split; [reflexivity|]. split; [reflexivity|]. cbn. lia.
Qed.

(** C4, amended: for an index that has an item, [onUserAction] emits
    exactly one event, with the id of that item, the given action and the
    time elapsed since the current [viewStartRef], and then sets
    [viewStartRef] to now.  Consequently, when [viewStartRef] is the instant
    the dwell clock last restarted, an item at the current index that is
    liked 500 ms after that instant and scrolled away from 800 ms after it
    logs a like with dwell 500 followed by a skip with dwell 300. *)
Theorem user_action_emits_and_resets
    (i : Z) (u : UserAction) (w : World) (r : Restaurant) :
  JS.index (restaurants w) i = Some r ->
  (exists w',
     onUserAction i u w = Ok tt w'
     /\ interactions w'
        = interactions w
          ++ [{| placeId := id r; action := action_of u;
                 timeSpentMs := clock w - viewStartRef w |}]
     /\ viewStartRef w' = clock w)
  /\ (forall j, currentIndexRef w = i -> j <> i ->
      exists w'',
        (at_time (viewStartRef w + 500) (onUserAction i tap_like) ;;
         at_time (viewStartRef w + 800) (onDominantItemChanged (Some j))) w
        = Ok tt w''
        /\ interactions w''
           = interactions w
             ++ [{| placeId := id r; action := like; timeSpentMs := 500 |};
                 {| placeId := id r; action := skip; timeSpentMs := 300 |}]).
Proof.
  intros Hi. split.
  - rewrite (onUserAction_item _ _ _ _ Hi). eexists. split; [reflexivity|].
    cbn. split; reflexivity.
  - intros j Hcur Hj. unfold bind. rewrite at_time_run.
    rewrite (onUserAction_item _ _ _ r) by exact Hi.
    rewrite at_time_run. unfold onDominantItemChanged.
    rewrite report_change by (cbn; congruence).
    cbn [restaurants currentIndexRef with_clock with_viewStart log
         with_interactions].
    rewrite Hcur, Hi. eexists. split; [reflexivity|].
    cbn. rewrite <- app_assoc. cbn. unfold event_of. cbn.
    repeat f_equal; lia.
Qed.

Lemma user_action_emits_and_resets_witness :
  JS.index (restaurants Sample.loaded) 0 = Some Sample.r0
  /\ exists w'',
       (at_time (viewStartRef Sample.loaded + 500) (onUserAction 0 tap_like) ;;
        at_time (viewStartRef Sample.loaded + 800) (onDominantItemChanged (Some 1)))
         Sample.loaded
       = Ok tt w''
       /\ interactions w''
          = interactions Sample.loaded
            ++ [{| placeId := id Sample.r0; action := like; timeSpentMs := 500 |};
                {| placeId := id Sample.r0; action := skip; timeSpentMs := 300 |}].
Proof.
  split; [reflexivity|].
  destruct (user_action_emits_and_resets 0 tap_like Sample.loaded Sample.r0 eq_refl)
    as [_ H].
  apply (H 1); [reflexivity | lia].
Defined.

(** ** The like toggle *)

Lemma card_toggle_off (i : Z) (bar : ActionBar) (w : World) (r : Restaurant) :
  liked bar = false ->
  JS.index (restaurants w) i = Some r ->
  card_toggle i bar w
  = Ok (start [timing 140 120; spring 115 3 200] (setLiked true bar))
       (with_viewStart (clock w) (log (event_of w r like) w)).
Proof.
  intros Hl Hi. unfold card_toggle, handleToggleLike. rewrite Hl.
  unfold bind. change (handleLike i) with (onUserAction i tap_like).
  rewrite (onUserAction_item _ _ _ _ Hi). reflexivity.
Qed.

Lemma card_toggle_on (i : Z) (bar : ActionBar) (w : World) (r : Restaurant) :
  liked bar = true ->
  JS.index (restaurants w) i = Some r ->
  card_toggle i bar w
  = Ok (setLiked false bar)
       (with_viewStart (clock w) (log (event_of w r unlike) w)).
Proof.
  intros Hl Hi. unfold card_toggle, handleToggleLike. rewrite Hl.
  unfold bind. change (handleUnlike i) with (onUserAction i tap_unlike).
  rewrite (onUserAction_item _ _ _ _ Hi). reflexivity.
Qed.

(** C5: on the card of an item of the feed whose [liked] is false, two
    toggles in succession (at [t1], then at [t2]) return normally, emit
    exactly one like event followed by exactly one unlike event, both for
    that item, and leave [liked] equal to false. *)
Theorem toggle_twice_like_then_unlike
    (i t1 t2 : Z) (bar : ActionBar) (w : World) (r : Restaurant) :
  liked bar = false ->
  JS.index (restaurants w) i = Some r ->
  exists bar' w',
    toggle_twice i t1 t2 bar w = Ok bar' w'
    /\ liked bar' = false
    /\ interactions w'
       = interactions w
         ++ [{| placeId := id r; action := like; timeSpentMs := t1 - viewStartRef w |};
             {| placeId := id r; action := unlike; timeSpentMs := t2 - t1 |}].
Proof.
  intros Hl Hi. unfold toggle_twice, bind. rewrite at_time_run.
  rewrite (card_toggle_off i bar _ r) by assumption.
  rewrite at_time_run.
  rewrite (card_toggle_on i _ _ r) by (try reflexivity; exact Hi).
  do 2 eexists. split; [reflexivity|]. split; [reflexivity|].
  cbn. now rewrite <- app_assoc.
Qed.

Lemma toggle_twice_like_then_unlike_witness :
  liked ActionBar_mount = false
  /\ JS.index (restaurants Sample.loaded) 1 = Some Sample.r1
  /\ exists bar' w',
       toggle_twice 1 500 900 ActionBar_mount Sample.loaded = Ok bar' w'
       /\ liked bar' = false
       /\ interactions w'
          = interactions Sample.loaded
            ++ [{| placeId := id Sample.r1; action := like;
                   timeSpentMs := 500 - viewStartRef Sample.loaded |};
                {| placeId := id Sample.r1; action := unlike;
                   timeSpentMs := 900 - 500 |}].
Proof.
  split; [reflexivity|]. split; [reflexivity|].
  apply (toggle_twice_like_then_unlike 1 500 900 ActionBar_mount Sample.loaded Sample.r1);
    reflexivity.
Defined.

(** ** The interaction sink *)

(** C9: without an authenticated session user ([session] absent, or present
    without [user]) [recordInteraction] fulfils and leaves the table as it
    was; with a session user it fulfils after appending exactly one row that
    carries the user's id and the given place id, action and time spent. *)
Theorem recordInteraction_spec
    (placeId : string) (a : Action) (ms : Z) (sb : Lib.Supabase) :
  Lib.recordInteraction placeId a ms sb
  = inr match Lib.session_user (Lib.session sb) with
        | None => sb
        | Some u =>
            {| Lib.session := Lib.session sb;
               Lib.restaurant_interactions :=
                 Lib.restaurant_interactions sb
                 ++ [{| Lib.row_user_id := Lib.user_id u; Lib.place_id := placeId;
                        Lib.row_action := a; Lib.time_spent_ms := ms |}] |}
        end.
Proof.
  unfold Lib.recordInteraction, Lib.prop_user_id.
  destruct (Lib.session_user (Lib.session sb)) as [u|]; reflexivity.
Qed.

(** ** Loading the feed *)

Lemma load_success (env : Env) (data : list Restaurant) (w : World) :
  load_succeeds env data ->
  loadRestaurants env w
  = Ok tt (with_loading false (with_restaurants data (with_error None w))).
Proof.
  intros [c Hp Hc Hf].
  unfold loadRestaurants, try_finally, try_catch, bind.
  rewrite Hp, Hc. cbn. rewrite Hf. reflexivity.
Qed.

Lemma load_failure (env : Env) (w : World) :
  load_fails env ->
  exists msg,
    loadRestaurants env w
    = Ok tt (with_loading false (with_restaurants [] (with_error (Some msg) w))).
Proof.
  intros [e Hp | st Hp Hst | e Hp Hc | c e Hp Hc Hf];
    unfold loadRestaurants, try_finally, try_catch, bind; rewrite Hp.
  - exists (catch_message e). reflexivity.
  - eexists. destruct st; [congruence | reflexivity | reflexivity].
  - exists (catch_message e). rewrite Hc. reflexivity.
  - exists (catch_message e). rewrite Hc. cbn. rewrite Hf. reflexivity.
Qed.

(** Run without interruption, the two steps are the whole function. *)
Lemma loadRestaurants_split (env : Env) (w : World) :
  loadRestaurants env w = (loadRestaurants_start ;; loadRestaurants_settle env) w.
Proof.
  unfold loadRestaurants, loadRestaurants_start, loadRestaurants_settle,
    try_finally, try_catch, bind.
  cbn. reflexivity.
Qed.

Lemma settle_success (env : Env) (data : list Restaurant) (w : World) :
  load_succeeds env data ->
  loadRestaurants_settle env w = Ok tt (with_loading false (with_restaurants data w)).
Proof.
  intros [c Hp Hc Hf].
  unfold loadRestaurants_settle, try_finally, try_catch, bind.
  rewrite Hp, Hc. cbn. rewrite Hf. reflexivity.
Qed.

Lemma settle_failure (env : Env) (w : World) :
  load_fails env ->
  exists msg,
    loadRestaurants_settle env w
    = Ok tt (with_loading false (with_restaurants [] (with_error (Some msg) w))).
Proof.
  intros [e Hp | st Hp Hst | e Hp Hc | c e Hp Hc Hf];
    unfold loadRestaurants_settle, try_finally, try_catch, bind; rewrite Hp.
  - exists (catch_message e). reflexivity.
  - eexists. destruct st; [congruence | reflexivity | reflexivity].
  - exists (catch_message e). rewrite Hc. reflexivity.
  - exists (catch_message e). rewrite Hc. cbn. rewrite Hf. reflexivity.
Qed.

(** C2, as stated, fails: the screen mounted at time 0 whose load resolves
    at time 1000 keeps [viewStartRef] at 0, and a tracker that has moved to
    index 2 keeps [currentIndexRef] at 2 through a successful reload. *)
Lemma load_leaves_refs_counterexample :
  (exists w',
     at_time 1000 (loadRestaurants Sample.env_ok) (mount 0) = Ok tt w'
     /\ restaurants w' = Sample.feed
     /\ viewStartRef w' = 0
     /\ viewStartRef w' <> 1000)
  /\ (exists w1 w2,
        at_time 400 (onDominantItemChanged (Some 2)) Sample.loaded = Ok tt w1
        /\ at_time 1000 (loadRestaurants Sample.env_ok) w1 = Ok tt w2
        /\ currentIndexRef w2 = 2
        /\ currentIndexRef w2 <> 0
        /\ viewStartRef w2 = 400).
Proof.
  split.
  - eexists. split; [reflexivity|]. cbn. repeat split. lia.
  - do 2 eexists. split; [reflexivity|]. split; [reflexivity|].
    cbn. repeat split. lia.
Qed.

(** C2, amended: every successful load or reload replaces [restaurants]
    wholesale by the fetched data and does not reset the tracker:
    [currentIndexRef] and [viewStartRef] are left as they were (0 and the
    mount time on a fresh screen).  This holds for a load that runs without
    interruption, and for the settling step of a load in flight, from
    whatever state the screen has reached meanwhile. *)
Theorem load_success_replaces_feed_only
    (env : Env) (data : list Restaurant) (t : Z) (w : World) :
  load_succeeds env data ->
  (exists w',
     at_time t (loadRestaurants env) w = Ok tt w'
     /\ restaurants w' = data
     /\ currentIndexRef w' = currentIndexRef w
     /\ viewStartRef w' = viewStartRef w)
  /\ (exists w',
        at_time t (loadRestaurants_settle env) w = Ok tt w'
        /\ restaurants w' = data
        /\ currentIndexRef w' = currentIndexRef w
        /\ viewStartRef w' = viewStartRef w).
Proof.
  intros H. split.
  - rewrite at_time_run, (load_success _ _ _ H).
    eexists. split; [reflexivity|]. cbn. repeat split.
  - rewrite at_time_run, (settle_success _ _ _ H).
    eexists. split; [reflexivity|]. cbn. repeat split.
Qed.

Lemma load_success_replaces_feed_only_witness :
  load_succeeds Sample.env_ok Sample.feed
  /\ (exists w',
        at_time 1000 (loadRestaurants Sample.env_ok) (mount 0) = Ok tt w'
        /\ restaurants w' = Sample.feed
        /\ currentIndexRef w' = currentIndexRef (mount 0)
        /\ viewStartRef w' = viewStartRef (mount 0))
  /\ (exists w',
        at_time 1000 (loadRestaurants_settle Sample.env_ok) (mount 0) = Ok tt w'
        /\ restaurants w' = Sample.feed
        /\ currentIndexRef w' = currentIndexRef (mount 0)
        /\ viewStartRef w' = viewStartRef (mount 0)).
Proof.
  assert (H : load_succeeds Sample.env_ok Sample.feed)
    by (apply (load_ok _ _ {| latitude := 40; longitude := -74 |}); reflexivity).
  split; [exact H|].
  apply (load_success_replaces_feed_only Sample.env_ok Sample.feed 1000 (mount 0) H).
Defined.

Lemma report_on_empty_feed (newIndex : option Z) (w : World) :
  restaurants w = [] ->
  exists w',
    onDominantItemChanged newIndex w = Ok tt w'
    /\ interactions w' = interactions w
    /\ restaurants w' = [].
Proof.
  intros He. unfold onDominantItemChanged. destruct newIndex as [i|].
  - destruct (Z.eq_dec i (currentIndexRef w)) as [->|Hne].
    + rewrite report_same. eauto.
    + rewrite (report_change _ _ _ Hne), He.
      replace (JS.index [] (currentIndexRef w)) with (@None Restaurant).
      * eexists. split; [reflexivity|]. cbn. auto.
      * unfold JS.index. destruct (currentIndexRef w <? 0); [reflexivity|].
        now destruct (Z.to_nat (currentIndexRef w)).
  - exists w. cbn. auto.
Qed.

(** What every failed load does (the permission request rejects or is not
    granted, the position request rejects, or the fetch rejects): the load
    itself returns normally, [restaurants] is empty, [error] holds a string
    and [loading] is false; and any later dominant-index report on that state,
    null or not, at any time, returns normally and emits no event.  The
    string can be empty. *)
Theorem load_failure_leaves_empty_feed (env : Env) (t : Z) (w : World) :
  load_fails env ->
  exists w' msg,
    at_time t (loadRestaurants env) w = Ok tt w'
    /\ restaurants w' = []
    /\ error w' = Some msg
    /\ loading w' = false
    /\ forall t' newIndex,
         exists w'',
           at_time t' (onDominantItemChanged newIndex) w' = Ok tt w''
           /\ interactions w'' = interactions w'.
Proof.
  intros H. rewrite at_time_run.
  destruct (load_failure env (with_clock t w) H) as [msg ->].
  do 2 eexists. do 4 (split; [reflexivity|]).
  intros t' newIndex. rewrite at_time_run.
  edestruct (report_on_empty_feed newIndex) as [w'' [Hr [Hi _]]];
    [|exists w''; split; [exact Hr | exact Hi]].
  reflexivity.
Qed.

Lemma load_failure_leaves_empty_feed_witness :
  load_fails Sample.env_down
  /\ exists w' msg,
       at_time 1000 (loadRestaurants Sample.env_down) (mount 0) = Ok tt w'
       /\ restaurants w' = []
       /\ error w' = Some msg
       /\ loading w' = false
       /\ forall t' newIndex,
            exists w'',
              at_time t' (onDominantItemChanged newIndex) w' = Ok tt w''
              /\ interactions w'' = interactions w'.
Proof.
  assert (H : load_fails Sample.env_down)
    by (apply (fetch_rejected _ {| latitude := 40; longitude := -74 |}
                 (JS.ErrorObj "upstream unavailable")); reflexivity).
  split; [exact H|].
  apply (load_failure_leaves_empty_feed Sample.env_down 1000 (mount 0) H).
Defined.

(** C7: the code at the failing input.  The server refuses with a body
    whose [error] field is the empty string: the load fails and empties the
    feed, but the message it stores is the empty string, which the screen's test [error && ...] takes
    for no error, so the screen shows "No restaurants found nearby." with no
    Retry and no error state is exposed. *)
Theorem empty_error_message_is_not_exposed :
  load_fails Sample.env_mute
  /\ exists w',
       at_time 1000 (loadRestaurants Sample.env_mute) (mount 0) = Ok tt w'
       /\ restaurants w' = []
       /\ error w' = Some EmptyString
       /\ JS.truthy_string (error w') = false
       /\ render w' = EmptyView
       /\ (forall msg, render w' <> ErrorView msg).
Proof.
  split.
  - apply (fetch_rejected _ {| latitude := 40; longitude := -74 |}
             (JS.ErrorObj EmptyString)); reflexivity.
  - eexists. split; [reflexivity|]. do 4 (split; [reflexivity|]).
    intros msg. discriminate.
Qed.

(** ** Null and out-of-range indices *)

(** C3, as stated, fails: on the sample feed (three items, index 0 current
    since time 0) the out-of-range index 5 at time 100 makes
    [onDominantItemChanged] emit a skip event and move both references, and
    makes [onUserAction] move [viewStartRef]. *)
Lemma out_of_range_counterexample :
  JS.index (restaurants Sample.loaded) 5 = None
  /\ (exists w',
        at_time 100 (onDominantItemChanged (Some 5)) Sample.loaded = Ok tt w'
        /\ interactions w' = [skip_of Sample.r0 100]
        /\ interactions w' <> interactions Sample.loaded
        /\ currentIndexRef w' = 5
        /\ currentIndexRef w' <> currentIndexRef Sample.loaded
        /\ viewStartRef w' <> viewStartRef Sample.loaded)
  /\ (exists w',
        at_time 100 (onUserAction 5 tap_like) Sample.loaded = Ok tt w'
        /\ viewStartRef w' = 100
        /\ viewStartRef w' <> viewStartRef Sample.loaded).
Proof.
  split; [reflexivity|]. split.
  - eexists. split; [reflexivity|]. cbn. repeat split; try discriminate; lia.
  - eexists. split; [reflexivity|]. cbn. split; [reflexivity | lia].
Qed.

(** C3, amended: a null report (or an empty [viewableItems]) is ignored
    whole: no event, no error, the state as it was.  For an index with no
    item in the current feed no operation raises an error or changes
    [restaurants]; [onUserAction] emits no event and leaves
    [currentIndexRef] as it was; [onDominantItemChanged] emits nothing for
    that index: the log grows by nothing, or by the one skip event of the
    item at the previous [currentIndexRef]. *)
Theorem null_and_out_of_range_calls (i : Z) (w : World) :
  JS.index (restaurants w) i = None ->
  (onDominantItemChanged None w = Ok tt w
   /\ handleViewableItemsChanged [] w = Ok tt w
   /\ forall rest, handleViewableItemsChanged ({| index := None |} :: rest) w = Ok tt w)
  /\ (forall u,
      exists w',
        onUserAction i u w = Ok tt w'
        /\ interactions w' = interactions w
        /\ currentIndexRef w' = currentIndexRef w
        /\ restaurants w' = restaurants w)
  /\ (exists w',
        onDominantItemChanged (Some i) w = Ok tt w'
        /\ restaurants w' = restaurants w
        /\ (interactions w' = interactions w
            \/ exists r,
                 JS.index (restaurants w) (currentIndexRef w) = Some r
                 /\ interactions w'
                    = interactions w
                      ++ [{| placeId := id r; action := skip;
                             timeSpentMs := clock w - viewStartRef w |}])).
Proof.
  intros Hi. split; [|split].
  - repeat split.
  - intros u. rewrite (onUserAction_no_item _ _ _ Hi).
    eexists. split; [reflexivity|]. cbn. auto.
  - unfold onDominantItemChanged.
    destruct (Z.eq_dec i (currentIndexRef w)) as [->|Hne].
    + rewrite report_same. exists w. auto.
    + rewrite (report_change _ _ _ Hne).
      destruct (JS.index (restaurants w) (currentIndexRef w)) as [r|] eqn:Hc;
        (eexists; split; [reflexivity|]); cbn; split; auto.
      right. exists r. auto.
Qed.

Lemma null_and_out_of_range_calls_witness :
  let w := with_clock 100 Sample.loaded in
  JS.index (restaurants w) 5 = None
  /\ (forall u,
      exists w',
        onUserAction 5 u w = Ok tt w'
        /\ interactions w' = interactions w
        /\ currentIndexRef w' = currentIndexRef w
        /\ restaurants w' = restaurants w)
  /\ (exists w',
        onDominantItemChanged (Some 5) w = Ok tt w'
        /\ restaurants w' = restaurants w
        /\ (interactions w' = interactions w
            \/ exists r,
                 JS.index (restaurants w) (currentIndexRef w) = Some r
                 /\ interactions w'
                    = interactions w
                      ++ [{| placeId := id r; action := skip;
                             timeSpentMs := clock w - viewStartRef w |}])).
Proof.
  intros w. split; [reflexivity|].
  apply (null_and_out_of_range_calls 5 w). reflexivity.
Defined.

(** ** Sequences of dominant-index reports *)

Lemma last_cons_default {A : Type} (l : list A) :
  forall x d, last (x :: l) d = last l x.
Proof.
  induction l as [|y l IH]; intros x d; [reflexivity|].
  change (last (x :: y :: l) d) with (last (y :: l) d).
  now rewrite !IH.
Qed.

Section Reports.

Variable feed : list Restaurant.

(** From a tracker whose session is [(t0, i0)], a run of valid reports
    without consecutive repeats logs [adjacent_skips] and ends in the
    session of the last report. *)
Lemma run_reports_log (rs : list Report) :
  forall w,
    restaurants w = feed ->
    valid_index feed (currentIndexRef w) ->
    Forall (valid_report feed) rs ->
    no_repeat (currentIndexRef w) rs ->
    exists w',
      run_reports rs w = Ok tt w'
      /\ restaurants w' = feed
      /\ interactions w'
         = interactions w
           ++ adjacent_skips feed (viewStartRef w, currentIndexRef w) rs
      /\ (viewStartRef w', currentIndexRef w')
         = last rs (viewStartRef w, currentIndexRef w).
Proof.
  induction rs as [|[t i] rs IH]; intros w Hfeed Hcur Hall Hrep.
  - exists w. cbn. rewrite app_nil_r. auto.
  - apply Forall_cons_iff in Hall as [Hi Hall']. destruct Hrep as [Hne Hrep].
    cbn [snd] in Hne, Hrep. unfold valid_report in Hi.
    cbn [run_reports]. unfold bind at 1. rewrite at_time_run.
    unfold onDominantItemChanged.
    rewrite report_change by (cbn; congruence).
    cbn [restaurants currentIndexRef with_clock]. rewrite Hfeed.
    destruct (JS.index feed (currentIndexRef w)) as [r|] eqn:Hr;
      [|now elim Hcur].
    match goal with |- context [run_reports rs ?w1] =>
      destruct (IH w1) as [w' [Hrun [Hf [Hlog Hlast]]]];
        [exact Hfeed | exact Hi | exact Hall' | exact Hrep |]
    end.
    exists w'. split; [exact Hrun|]. split; [exact Hf|]. split.
    + cbn in Hlog. rewrite Hlog. cbn. rewrite Hr.
      rewrite <- app_assoc. reflexivity.
    + cbn in Hlast. rewrite Hlast. now rewrite last_cons_default.
Qed.

Lemma adjacent_skips_length (rs : list Report) :
  forall prev,
    valid_report feed prev -> Forall (valid_report feed) rs ->
    List.length (adjacent_skips feed prev rs) = List.length rs.
Proof.
  induction rs as [|cur rs IH]; intros prev Hp Hall; [reflexivity|].
  inversion Hall; subst. cbn.
  destruct (JS.index feed (snd prev)) eqn:E; [|now elim Hp].
  cbn. f_equal. now apply IH.
Qed.

Lemma adjacent_skips_nth (rs : list Report) :
  forall prev k,
    valid_report feed prev -> Forall (valid_report feed) rs ->
    (k < List.length rs)%nat ->
    exists r,
      JS.index feed (snd (nth k (prev :: rs) (0, 0))) = Some r
      /\ nth_error (adjacent_skips feed prev rs) k
         = Some (skip_of r (fst (nth k rs (0, 0))
                            - fst (nth k (prev :: rs) (0, 0)))).
Proof.
  induction rs as [|cur rs IH]; intros prev k Hp Hall Hk; [cbn in Hk; lia|].
  inversion Hall; subst.
  cbn [adjacent_skips].
  destruct (JS.index feed (snd prev)) as [r|] eqn:E; [|now elim Hp].
  destruct k as [|k].
  - exists r. cbn. auto.
  - cbn in Hk. destruct (IH cur k) as [r' [Hr' Hn]]; try assumption; [lia|].
    exists r'. split; [exact Hr'|]. exact Hn.
Qed.

End Reports.

(** C1, as stated, fails on a screen mounted at time 0 with the sample feed
    on display.  The reports [1 at 100; 2 at 250] form one adjacent pair but
    emit two skip events, the first for index 0, which was never reported.
    The reports [0 at 100; 1 at 300] emit one skip event whose dwell is 300,
    counted from the mount, not the 200 between the two reports. *)
Lemma reports_from_mount_counterexample :
  (exists evs,
     emitted Sample.loaded (run_reports [(100, 1); (250, 2)] Sample.loaded) = Some evs
     /\ evs = [skip_of Sample.r0 100; skip_of Sample.r1 150]
     /\ List.length evs <> (List.length [(100, 1); (250, 2)] - 1)%nat)
  /\ (exists ms,
        emitted Sample.loaded (run_reports [(100, 0); (300, 1)] Sample.loaded)
        = Some [skip_of Sample.r0 ms]
        /\ ms = 300
        /\ ms <> 300 - 100).
Proof.
  split.
  - exists [skip_of Sample.r0 100; skip_of Sample.r1 150].
    split; [reflexivity|]. split; [reflexivity|]. cbn. lia.
  - exists 300. split; [reflexivity|]. split; [reflexivity|]. lia.
Qed.

(** C1, amended: let the tracker be in the session that report 0 stands for,
    that is, [currentIndexRef] is i0 and [viewStartRef] is the time of
    report 0.  Then for all reports i1 .. in, each valid for the feed and
    none equal to the one before it, the run returns normally and emits
    exactly n events; the k-th is a skip that carries the id of the item at
    i(k-1) and the time between report k-1 and report k.  The feed is
    unchanged and the tracker ends in the session of the last report. *)
Theorem skip_per_adjacent_pair (w : World) (t0 i0 : Z) (rs : list Report) :
  currentIndexRef w = i0 ->
  viewStartRef w = t0 ->
  Forall (valid_report (restaurants w)) ((t0, i0) :: rs) ->
  no_repeat i0 rs ->
  exists w' evs,
    run_reports rs w = Ok tt w'
    /\ interactions w' = interactions w ++ evs
    /\ List.length evs = List.length rs
    /\ (forall k, (k < List.length rs)%nat ->
        exists r,
          JS.index (restaurants w) (snd (nth k ((t0, i0) :: rs) (0, 0))) = Some r
          /\ nth_error evs k
             = Some {| placeId := id r; action := skip;
                       timeSpentMs := fst (nth k rs (0, 0))
                                      - fst (nth k ((t0, i0) :: rs) (0, 0)) |})
    /\ restaurants w' = restaurants w
    /\ (viewStartRef w', currentIndexRef w') = last rs (t0, i0).
Proof.
  intros Hc Hv Hall Hrep. inversion Hall as [|? ? H0 Hall']; subst.
  cbn [snd] in H0.
  destruct (run_reports_log (restaurants w) rs w eq_refl H0 Hall' Hrep)
    as [w' [Hrun [Hf [Hlog Hlast]]]].
  exists w', (adjacent_skips (restaurants w) (viewStartRef w, currentIndexRef w) rs).
  split; [exact Hrun|]. split; [exact Hlog|]. split.
  - now apply adjacent_skips_length.
  - split; [|split; assumption].
    intros k Hk. now apply adjacent_skips_nth.
Qed.

Lemma skip_per_adjacent_pair_witness :
  let w := with_viewStart 50 (with_currentIndex 1 Sample.loaded) in
  let rs := [(100, 2); (250, 0); (260, 1)] in
  exists w' evs,
    run_reports rs w = Ok tt w'
    /\ interactions w' = interactions w ++ evs
    /\ List.length evs = List.length rs
    /\ (forall k, (k < List.length rs)%nat ->
        exists r,
          JS.index (restaurants w) (snd (nth k ((50, 1) :: rs) (0, 0))) = Some r
          /\ nth_error evs k
             = Some {| placeId := id r; action := skip;
                       timeSpentMs := fst (nth k rs (0, 0))
                                      - fst (nth k ((50, 1) :: rs) (0, 0)) |})
    /\ restaurants w' = restaurants w
    /\ (viewStartRef w', currentIndexRef w') = last rs (50, 1).
Proof.
  intros w rs.
  apply (skip_per_adjacent_pair w 50 1 rs); try reflexivity.
  - repeat constructor; unfold valid_report, valid_index; cbn; discriminate.
  - cbn. repeat split; lia.
Defined.

Example run_skip_per_pair :
  emitted (with_viewStart 50 (with_currentIndex 1 Sample.loaded))
    (run_reports [(100, 2); (250, 0); (260, 1)]
       (with_viewStart 50 (with_currentIndex 1 Sample.loaded)))
  = Some [skip_of Sample.r1 50; skip_of Sample.r2 150; skip_of Sample.r0 10].
Proof. reflexivity. Qed.

(** ** Sharing and the cuisine label *)

Lemma append_inj_r (p a b : string) :
  String.append p a = String.append p b -> a = b.
Proof.
  induction p as [|c p IH]; cbn; intros H; [exact H|].
  injection H as H. now apply IH.
Qed.

(** X1: two restaurants are shared under the same URL only when they have
    the same id, and the URL in the message text is the shared URL. *)
Theorem handleShare_url_identifies (a b : Restaurant) :
  share_url (handleShare a) = share_url (handleShare b) ->
  id a = id b
  /\ message (handleShare a)
     = String.append "Check out "
         (String.append (name a)
            (String.append "!" (String.append LF (share_url (handleShare a))))).
Proof.
  intros H. split; [|reflexivity].
  cbn [handleShare share_url] in H. unfold getMapsUrl in H.
  now apply append_inj_r in H.
Qed.

Lemma handleShare_url_identifies_witness :
  id Sample.r1 = id Sample.r1
  /\ message (handleShare Sample.r1)
     = String.append "Check out "
         (String.append (name Sample.r1)
            (String.append "!"
               (String.append LF (share_url (handleShare Sample.r1))))).
Proof.
  apply (handleShare_url_identifies Sample.r1 Sample.r1). reflexivity.
Defined.

Lemma replace_underscores_length (s : string) :
  String.length (replace_underscores s) = String.length s.
Proof. induction s as [|c s IH]; cbn; [reflexivity | now rewrite IH]. Qed.

Lemma replace_underscores_clean (s : string) :
  ~ In "_"%char (list_ascii_of_string (replace_underscores s)).
Proof.
  induction s as [|c s IH]; cbn; [tauto|].
  intros [H|H]; [|now apply IH].
  destruct (Ascii.eqb_spec c "_"%char) as [E|E]; [discriminate H | congruence].
Qed.

(** X2: the cuisine line of a card never shows an underscore.  With a
    cuisine present it has the length of the cuisine, also when the cuisine
    is the empty string; the text "Restaurant" stands in only for an absent
    cuisine. *)
Theorem cuisine_label_has_no_underscore (r : Restaurant) :
  ~ In "_"%char (list_ascii_of_string (cuisine_label r))
  /\ match cuisine r with
     | Some c => String.length (cuisine_label r) = String.length c
     | None => cuisine_label r = "Restaurant"%string
     end.
Proof.
  unfold cuisine_label. destruct (cuisine r) as [c|]; cbn; split.
  - apply replace_underscores_clean.
  - apply replace_underscores_length.
  - intros H. repeat (destruct H as [H|H]; [discriminate H|]). exact H.
  - reflexivity.
Qed.

(** X3: a cuisine without underscores is shown unchanged, and replacing
    twice is replacing once. *)
Theorem replace_underscores_stable (s : string) :
  (~ In "_"%char (list_ascii_of_string s) -> replace_underscores s = s)
  /\ replace_underscores (replace_underscores s) = replace_underscores s.
Proof.
  assert (Hfix : forall s0, ~ In "_"%char (list_ascii_of_string s0) ->
                            replace_underscores s0 = s0).
  { induction s0 as [|c s0 IH]; cbn; intros Hn; [reflexivity|].
    destruct (Ascii.eqb_spec c "_"%char) as [E|E].
    - exfalso. apply Hn. left. now symmetry.
    - f_equal. apply IH. intros Hin. apply Hn. now right. }
  split; [apply Hfix|].
  apply Hfix, replace_underscores_clean.
Qed.

Lemma replace_underscores_stable_witness :
  replace_underscores "fast food" = "fast food"%string.
Proof.
  apply (proj1 (replace_underscores_stable "fast food")).
  cbn. intros H. repeat (destruct H as [H|H]; [discriminate H|]). exact H.
Defined.

(** ** The request and the answer of [fetchRestaurants] *)

(** X4: [fetchRestaurants] fulfils exactly when the network answers the
    request with an ok response whose body parses to an object, and then
    with the body's [restaurants], or with the empty list when the body has
    none; an ok response whose body is [null] or does not parse rejects. *)
Theorem fetchRestaurants_fulfils_iff
    (env_url : option string) (sb : Lib.Supabase) (net : Lib.Network)
    (lat lng radius : Z) (data : list Restaurant) :
  Lib.fetchRestaurants env_url sb net lat lng radius = inr data
  <-> exists resp b,
        net {| Lib.url := String.append (Lib.getSupabaseUrl env_url)
                            "/functions/v1/get-restaurants";
               Lib.authorization := Lib.bearer (Lib.session sb);
               Lib.body := (lat, lng, radius) |} = inr resp
        /\ Lib.ok resp = true
        /\ Lib.json resp = inr (Some b)
        /\ data = JS.nullish (Lib.body_restaurants b) [].
Proof.
  unfold Lib.fetchRestaurants. split.
  - destruct (net _) as [e|resp]; [discriminate|].
    destruct (Lib.ok resp) eqn:Hok; cbn.
    + destruct (Lib.json resp) as [e|[b|]] eqn:Hj; try discriminate.
      intros H. injection H as <-. exists resp, b. auto.
    + destruct (Lib.json resp) as [e|[b|]]; discriminate.
  - intros [resp [b [Hn [Hok [Hj ->]]]]]. rewrite Hn, Hok. cbn. now rewrite Hj.
Qed.

Lemma fetchRestaurants_fulfils_iff_witness :
  Lib.fetchRestaurants None Sample.signed_in Sample.server_ok 40 (-74) 3000
  = inr Sample.feed.
Proof.
  apply (proj2 (fetchRestaurants_fulfils_iff None Sample.signed_in Sample.server_ok
                  40 (-74) 3000 Sample.feed)).
  exists {| Lib.ok := true;
            Lib.json := inr (Some {| Lib.body_error := None;
                                     Lib.body_restaurants := Some Sample.feed |}) |},
         {| Lib.body_error := None; Lib.body_restaurants := Some Sample.feed |}.
  repeat split; reflexivity.
Defined.

(** X5: when the server answers with a response that is not ok,
    [fetchRestaurants] rejects with an [Error] object and never returns the
    [restaurants] of such a body.  The message is the [error] field when the
    body parses to an object that has one, and "Failed to fetch restaurants"
    when it parses to an object without one or does not parse; a body that
    parses to [null] gives the TypeError of reading [error] of [null]. *)
Theorem fetchRestaurants_not_ok_rejects
    (env_url : option string) (sb : Lib.Supabase) (net : Lib.Network)
    (lat lng radius : Z) (resp : Lib.Response) :
  net {| Lib.url := String.append (Lib.getSupabaseUrl env_url)
                      "/functions/v1/get-restaurants";
         Lib.authorization := Lib.bearer (Lib.session sb);
         Lib.body := (lat, lng, radius) |} = inr resp ->
  Lib.ok resp = false ->
  exists m,
    Lib.fetchRestaurants env_url sb net lat lng radius = inl (JS.ErrorObj m)
    /\ (forall b, Lib.json resp = inr (Some b) ->
        m = JS.nullish (Lib.body_error b) "Failed to fetch restaurants"%string)
    /\ (forall e, Lib.json resp = inl e -> m = "Failed to fetch restaurants"%string)
    /\ (Lib.json resp = inr None -> JS.ErrorObj m = Lib.TypeError_of_null "error").
Proof.
  intros Hn Hok. unfold Lib.fetchRestaurants. rewrite Hn, Hok. cbn.
  destruct (Lib.json resp) as [e|[b|]].
  - eexists. split; [reflexivity|]. split; [intros b H; discriminate H|].
    split; [reflexivity | intros H; discriminate H].
  - eexists. split; [reflexivity|]. split; [intros b' H; now injection H as <-|].
    split; [intros e H; discriminate H | intros H; discriminate H].
  - unfold Lib.TypeError_of_null. eexists. split; [reflexivity|].
    split; [intros b H; discriminate H|].
    split; [intros e H; discriminate H | reflexivity].
Qed.

Lemma fetchRestaurants_not_ok_rejects_witness :
  exists m,
    Lib.fetchRestaurants None Sample.signed_out Sample.server_null 40 (-74) 3000
    = inl (JS.ErrorObj m)
    /\ (forall b, @inr JS.Thrown (option Lib.Body) None = inr (Some b) ->
        m = JS.nullish (Lib.body_error b) "Failed to fetch restaurants"%string)
    /\ (forall e, @inr JS.Thrown (option Lib.Body) None = inl e ->
        m = "Failed to fetch restaurants"%string)
    /\ (@inr JS.Thrown (option Lib.Body) None = inr None ->
        JS.ErrorObj m = Lib.TypeError_of_null "error").
Proof.
  apply (fetchRestaurants_not_ok_rejects None Sample.signed_out Sample.server_null
           40 (-74) 3000 {| Lib.ok := false; Lib.json := inr None |});
    reflexivity.
Defined.

(** X6: the request carries an Authorization header exactly when there is a
    session with a non-empty access token, and the header is then "Bearer "
    followed by the token. *)
Theorem bearer_iff_token (s : option Lib.Session) (h : string) :
  Lib.bearer s = Some h
  <-> exists s' tok,
        s = Some s'
        /\ Lib.access_token s' = Some tok
        /\ tok <> EmptyString
        /\ h = String.append "Bearer " tok.
Proof.
  unfold Lib.bearer. split.
  - destruct s as [s'|]; [|discriminate].
    destruct (Lib.access_token s') as [tok|] eqn:Ht; cbn; [|discriminate].
    destruct (String.eqb_spec tok EmptyString) as [E|E]; cbn; [discriminate|].
    intros H. injection H as <-. exists s', tok. auto.
  - intros [s' [tok [-> [Ht [Hne ->]]]]]. rewrite Ht. cbn.
    destruct (String.eqb_spec tok EmptyString) as [E|E]; [contradiction|].
    reflexivity.
Qed.

Lemma bearer_iff_token_witness :
  Lib.bearer (Lib.session Sample.signed_in) = Some "Bearer tok"%string.
Proof.
  apply (proj2 (bearer_iff_token (Lib.session Sample.signed_in) "Bearer tok")).
  exists {| Lib.access_token := Some "tok"%string;
            Lib.user := Some {| Lib.user_id := "user-7" |} |}, "tok"%string.
  repeat split; try reflexivity. discriminate.
Defined.

(** X7: the screen's fetch depends on the network only through the answer
    to one request: the functions URL, the bearer header of the session, and
    the body with the coordinates and the default radius 3000. *)
Theorem fetch_sends_one_request (env : Env) (net net' : Lib.Network) (lat lng : Z) :
  net (request_of env lat lng) = net' (request_of env lat lng) ->
  fetchRestaurants (with_network net env) lat lng
  = fetchRestaurants (with_network net' env) lat lng.
Proof.
  intros H. unfold fetchRestaurants, Lib.fetchRestaurants.
  cbn [with_network EXPO_PUBLIC_SUPABASE_URL supabase network].
  unfold request_of, Lib.default_radius in *. now rewrite H.
Qed.

Lemma fetch_sends_one_request_witness :
  fetchRestaurants (with_network Sample.server_ok Sample.env_ok) 40 (-74)
  = fetchRestaurants
      (with_network
         (fun r => if (snd (Lib.body r) =? 3000) then Sample.server_ok r
                   else Sample.server_down r)
         Sample.env_ok) 40 (-74).
Proof.
  apply (fetch_sends_one_request Sample.env_ok). reflexivity.
Defined.

(** ** Every load settles; what the screen shows afterwards *)

Lemma load_outcome_cases (env : Env) :
  load_fails env \/ exists data, load_succeeds env data.
Proof.
  destruct (requestForegroundPermissionsAsync env) as [e|st] eqn:Hp.
  - left. eapply permission_rejected; eassumption.
  - destruct st;
      try (left; eapply permission_not_granted; [eassumption | discriminate]).
    destruct (getCurrentPositionAsync env) as [e|c] eqn:Hc.
    + left. eapply position_rejected; eassumption.
    + destruct (fetchRestaurants env (latitude c) (longitude c)) as [e|data] eqn:Hf.
      * left. eapply fetch_rejected; eassumption.
      * right. exists data. eapply load_ok; eassumption.
Qed.

Lemma render_not_loading (w : World) :
  loading w = false -> render w <> LoadingView.
Proof.
  intros Hl. unfold render. rewrite Hl. cbn.
  destruct (JS.truthy_string (error w) && _); [discriminate|].
  destruct (_ =? 0); discriminate.
Qed.

(** X8: a load never throws, whatever the permission, position and network
    calls answer and whatever the state it starts from: it returns normally
    with [loading] false, so the spinner is gone, and it emits no event and
    leaves both tracker references alone. *)
Theorem load_always_settles (env : Env) (t : Z) (w : World) :
  exists w',
    at_time t (loadRestaurants env) w = Ok tt w'
    /\ loading w' = false
    /\ render w' <> LoadingView
    /\ interactions w' = interactions w
    /\ currentIndexRef w' = currentIndexRef w
    /\ viewStartRef w' = viewStartRef w.
Proof.
  rewrite at_time_run.
  destruct (load_outcome_cases env) as [Hf | [data Hs]].
  - destruct (load_failure env (with_clock t w) Hf) as [msg ->].
    eexists. split; [reflexivity|]. split; [reflexivity|].
    split; [now apply render_not_loading|]. cbn. auto.
  - rewrite (load_success env data _ Hs).
    eexists. split; [reflexivity|]. split; [reflexivity|].
    split; [now apply render_not_loading|]. cbn. auto.
Qed.

(** X9: a load writes the screen in two steps, and run without
    interruption it is just the two.  The first sets [loading] and clears
    [error].  The settling step, from whatever state the screen has reached
    meanwhile, never throws, sets [loading] to false and leaves the tracker
    and the log alone; when the load succeeds it replaces the feed and leaves
    [error] as it finds it, so [error] is null afterwards only if nothing
    set it while the load was in flight; when the load fails it stores a
    message and empties the feed. *)
Theorem load_settles_from_any_state (env : Env) (w : World) :
  loadRestaurants env w = (loadRestaurants_start ;; loadRestaurants_settle env) w
  /\ (exists w0,
        loadRestaurants_start w = Ok tt w0
        /\ error w0 = None /\ loading w0 = true
        /\ restaurants w0 = restaurants w)
  /\ (exists w',
        loadRestaurants_settle env w = Ok tt w'
        /\ loading w' = false
        /\ interactions w' = interactions w
        /\ currentIndexRef w' = currentIndexRef w
        /\ viewStartRef w' = viewStartRef w
        /\ ((exists data,
               load_succeeds env data
               /\ restaurants w' = data /\ error w' = error w)
            \/ (exists msg,
                  load_fails env
                  /\ restaurants w' = [] /\ error w' = Some msg))).
Proof.
  split; [apply loadRestaurants_split|]. split.
  - eexists. split; [reflexivity|]. cbn. auto.
  - destruct (load_outcome_cases env) as [Hf | [data Hs]].
    + destruct (settle_failure env w Hf) as [msg ->].
      eexists. split; [reflexivity|]. cbn. do 4 (split; [reflexivity|]).
      right. exists msg. auto.
    + rewrite (settle_success env data w Hs).
      eexists. split; [reflexivity|]. cbn. do 4 (split; [reflexivity|]).
      left. exists data. auto.
Qed.

(** Two loads in flight at once: the one that fails settles first, the one
    that succeeds settles last and leaves the error beside the feed. *)
Example run_overlapping_loads :
  exists w',
    (loadRestaurants_start ;; loadRestaurants_start ;;
     loadRestaurants_settle Sample.env_down ;;
     loadRestaurants_settle Sample.env_ok) (mount 0) = Ok tt w'
    /\ restaurants w' = Sample.feed
    /\ error w' = Some "upstream unavailable"%string
    /\ render w' = FeedView Sample.feed.
Proof. eexists. split; [reflexivity|]. repeat split. Qed.

(** X10: when the permission request answers anything but granted, the
    position and the network play no part: the load clears the feed, also a
    feed already on display, and sets the location-permission message. *)
Theorem load_without_permission (env : Env) (st : PermissionStatus) (w : World) :
  requestForegroundPermissionsAsync env = inr st ->
  st <> granted ->
  loadRestaurants env w
  = Ok tt (with_loading false
             (with_restaurants []
                (with_error
                   (Some "Location permission is required to find nearby restaurants."%string)
                   w))).
Proof.
  intros Hp Hst. unfold loadRestaurants, try_finally, try_catch, bind.
  rewrite Hp. destruct st; [congruence | reflexivity | reflexivity].
Qed.

Lemma load_without_permission_witness :
  loadRestaurants Sample.env_denied Sample.loaded
  = Ok tt (with_loading false
             (with_restaurants []
                (with_error
                   (Some "Location permission is required to find nearby restaurants."%string)
                   Sample.loaded))).
Proof.
  apply (load_without_permission Sample.env_denied denied Sample.loaded);
    [reflexivity | discriminate].
Defined.

Lemma render_after_failure (msg : string) (w : World) :
  loading w = false -> restaurants w = [] -> error w = Some msg ->
  render w = if String.eqb msg EmptyString then EmptyView else ErrorView msg.
Proof.
  intros Hl Hr He. unfold render. rewrite Hl, Hr, He. cbn.
  now destruct (String.eqb msg EmptyString).
Qed.

(** X11: after a failed load the screen shows the error text with its
    Retry, unless the message is the empty string: then it shows the
    "No restaurants found nearby." text, which has no Retry. *)
Theorem failed_load_view (env : Env) (t : Z) (w : World) :
  load_fails env ->
  exists w' msg,
    at_time t (loadRestaurants env) w = Ok tt w'
    /\ error w' = Some msg
    /\ render w' = if String.eqb msg EmptyString then EmptyView else ErrorView msg.
Proof.
  intros Hf. rewrite at_time_run.
  destruct (load_failure env (with_clock t w) Hf) as [msg ->].
  exists (with_loading false (with_restaurants [] (with_error (Some msg) (with_clock t w)))), msg.
  split; [reflexivity|]. split; [reflexivity|].
  now apply render_after_failure.
Qed.

Lemma failed_load_view_witness :
  exists w' msg,
    at_time 1000 (loadRestaurants Sample.env_down) (mount 0) = Ok tt w'
    /\ error w' = Some msg
    /\ render w' = if String.eqb msg EmptyString then EmptyView else ErrorView msg.
Proof.
  apply (failed_load_view Sample.env_down 1000 (mount 0)).
  apply (fetch_rejected _ {| latitude := 40; longitude := -74 |}
           (JS.ErrorObj "upstream unavailable")); reflexivity.
Defined.

(** X12: when permission is granted, the position is known and the server
    answers the request with a response that is not ok whose body carries an
    [error] text, that text becomes the screen's [error] and the feed is
    empty; a non-empty text is what the error view shows. *)
Theorem server_error_text_is_shown
    (env : Env) (c : Coords) (resp : Lib.Response) (b : Lib.Body) (m : string)
    (t : Z) (w : World) :
  requestForegroundPermissionsAsync env = inr granted ->
  getCurrentPositionAsync env = inr c ->
  network env (request_of env (latitude c) (longitude c)) = inr resp ->
  Lib.ok resp = false ->
  Lib.json resp = inr (Some b) ->
  Lib.body_error b = Some m ->
  exists w',
    at_time t (loadRestaurants env) w = Ok tt w'
    /\ error w' = Some m
    /\ restaurants w' = []
    /\ (m <> EmptyString -> render w' = ErrorView m).
Proof.
  intros Hp Hc Hn Hok Hj Hm. rewrite at_time_run.
  assert (Hf : fetchRestaurants env (latitude c) (longitude c) = inl (JS.ErrorObj m)).
  { unfold fetchRestaurants, Lib.fetchRestaurants.
    unfold request_of in Hn. unfold Lib.default_radius.
    rewrite Hn, Hok. cbn. now rewrite Hj, Hm. }
  unfold loadRestaurants, try_finally, try_catch, bind.
  rewrite Hp, Hc. cbn. rewrite Hf. cbn.
  eexists. split; [reflexivity|]. cbn. repeat split.
  intros Hne. unfold render. cbn.
  destruct (String.eqb_spec m EmptyString) as [E|E]; [contradiction|reflexivity].
Qed.

Lemma server_error_text_is_shown_witness :
  exists w',
    at_time 1000 (loadRestaurants Sample.env_down) (mount 0) = Ok tt w'
    /\ error w' = Some "upstream unavailable"%string
    /\ restaurants w' = []
    /\ ("upstream unavailable"%string <> EmptyString ->
        render w' = ErrorView "upstream unavailable").
Proof.
  apply (server_error_text_is_shown Sample.env_down
           {| latitude := 40; longitude := -74 |}
           {| Lib.ok := false;
              Lib.json := inr (Some {| Lib.body_error := Some "upstream unavailable"%string;
                                       Lib.body_restaurants := None |}) |}
           {| Lib.body_error := Some "upstream unavailable"%string;
              Lib.body_restaurants := None |});
    reflexivity.
Defined.

(** X13: the list is shown exactly when the feed is non-empty, whatever
    [loading] and [error] are; the error view with its Retry is shown
    exactly when the feed is empty, no load is running and [error] is a
    non-empty text. *)
Theorem render_shows (w : World) :
  (forall d, render w = FeedView d <-> restaurants w = d /\ d <> [])
  /\ (forall m, render w = ErrorView m
                <-> restaurants w = [] /\ loading w = false
                    /\ error w = Some m /\ m <> EmptyString).
Proof.
  unfold render. destruct (restaurants w) as [|r rs] eqn:Hr; cbn.
  - rewrite !andb_true_r. split.
    + intros d. split.
      * destruct (loading w); [discriminate|].
        destruct (JS.truthy_string (error w)); discriminate.
      * intros [<- Hd]. now elim Hd.
    + intros m. destruct (loading w); cbn.
      * split; [discriminate | intros [_ [H _]]; discriminate].
      * destruct (error w) as [e|]; cbn.
        -- destruct (String.eqb_spec e EmptyString) as [E|E]; cbn.
           ++ split; [discriminate|]. intros [_ [_ [H Hm]]].
              injection H as <-. contradiction.
           ++ split.
              ** intros H. injection H as <-. auto.
              ** intros [_ [_ [H _]]]. injection H as <-. reflexivity.
        -- split; [discriminate | intros [_ [_ [H _]]]; discriminate].
  - rewrite !andb_false_r. split.
    + intros d. split.
      * intros H. injection H as <-. split; [reflexivity | discriminate].
      * intros [<- _]. reflexivity.
    + intros m. split; [discriminate | intros [H _]; discriminate].
Qed.

Lemma render_shows_witness :
  render Sample.loaded = FeedView Sample.feed.
Proof.
  apply (proj2 (proj1 (render_shows Sample.loaded) Sample.feed)).
  split; [reflexivity | discriminate].
Defined.

(** ** The tracker under arbitrary input *)

(** X14: for every [viewableItems] and every state, the handler acts as for
    the first entry alone and never throws; it leaves [restaurants],
    [loading] and [error] alone; either nothing changes at all, or the
    current index changes, the clock restarts at now, and at most one event
    is logged: the skip of the item at the previous index. *)
Theorem viewable_items_step (viewableItems : list ViewToken) (w : World) :
  handleViewableItemsChanged viewableItems w
  = handleViewableItemsChanged (firstn 1 viewableItems) w
  /\ exists w',
       handleViewableItemsChanged viewableItems w = Ok tt w'
       /\ restaurants w' = restaurants w
       /\ loading w' = loading w
       /\ error w' = error w
       /\ (w' = w
           \/ (currentIndexRef w' <> currentIndexRef w
               /\ viewStartRef w' = clock w
               /\ (interactions w' = interactions w
                   \/ exists r,
                        JS.index (restaurants w) (currentIndexRef w) = Some r
                        /\ interactions w' = interactions w ++ [event_of w r skip]))).
Proof.
  split.
  - destruct viewableItems as [|v rest]; reflexivity.
  - destruct viewableItems as [|[[i|]] rest].
    + exists w. cbn. auto 10.
    + destruct (Z.eq_dec i (currentIndexRef w)) as [->|Hne].
      * rewrite report_same. exists w. auto 10.
      * rewrite (report_change _ _ _ Hne).
        destruct (JS.index (restaurants w) (currentIndexRef w)) as [r|] eqn:Hc;
          (eexists; split; [reflexivity|]); cbn; repeat (split; [reflexivity|]);
          right; (split; [congruence|]); (split; [reflexivity|]).
        -- right. exists r. auto.
        -- left. reflexivity.
    + exists w. cbn. auto 10.
Qed.

Lemma total_dwell_app (a b : list Interaction) :
  total_dwell (a ++ b) = total_dwell a + total_dwell b.
Proof.
  unfold total_dwell. induction a as [|e a IH]; cbn; [reflexivity|].
  rewrite IH. lia.
Qed.

(** One event: no throw, the log grows by events whose dwell runs from the
    old [viewStartRef] to the event, and [viewStartRef] stays or moves to the
    instant of the event. *)
Lemma deliver_step (e : Event) (w : World) :
  exists w' evs,
    deliver e w = Ok tt w'
    /\ interactions w' = interactions w ++ evs
    /\ (List.length evs <= 1)%nat
    /\ Forall (fun ev => timeSpentMs ev = event_time e - viewStartRef w) evs
    /\ (viewStartRef w' = viewStartRef w \/ viewStartRef w' = event_time e)
    /\ restaurants w' = restaurants w
    /\ loading w' = loading w
    /\ error w' = error w.
Proof.
  destruct e as [t [i|] | t i u]; cbn [deliver event_time]; rewrite at_time_run.
  - unfold onDominantItemChanged.
    destruct (Z.eq_dec i (currentIndexRef w)) as [->|Hne].
    + change (currentIndexRef w) with (currentIndexRef (with_clock t w)).
      rewrite report_same. exists (with_clock t w), []. cbn.
      rewrite app_nil_r. auto 10.
    + rewrite report_change by (cbn; exact Hne).
      cbn [restaurants currentIndexRef with_clock].
      destruct (JS.index (restaurants w) (currentIndexRef w)) as [r|].
      * eexists. exists [event_of (with_clock t w) r skip].
        split; [reflexivity|]. cbn. auto 10.
      * eexists. exists []. split; [reflexivity|]. cbn.
        rewrite app_nil_r. auto 10.
  - exists (with_clock t w), []. cbn. rewrite app_nil_r. auto 10.
  - destruct (JS.index (restaurants w) i) as [r|] eqn:Hi.
    + rewrite (onUserAction_item _ _ _ r) by exact Hi.
      eexists. exists [event_of (with_clock t w) r (action_of u)].
      split; [reflexivity|]. cbn. auto 10.
    + rewrite onUserAction_no_item by exact Hi.
      eexists. exists []. split; [reflexivity|]. cbn.
      rewrite app_nil_r. auto 10.
Qed.

(** X15: no stream of reports and taps, valid or not, in time order or not,
    makes the tracker throw or touch [restaurants], [loading] or [error];
    the log only grows, by at most one event per delivered event. *)
Theorem tracker_is_safe (es : list Event) :
  forall w,
  exists w' evs,
    run_events es w = Ok tt w'
    /\ interactions w' = interactions w ++ evs
    /\ (List.length evs <= List.length es)%nat
    /\ restaurants w' = restaurants w
    /\ loading w' = loading w
    /\ error w' = error w.
Proof.
  induction es as [|e es IH]; intros w.
  - exists w, []. cbn. rewrite app_nil_r. auto 10.
  - destruct (deliver_step e w)
      as [w1 [evs1 [Hrun [Hlog [Hlen [_ [_ [Hr [Hl He]]]]]]]]].
    destruct (IH w1) as [w' [evs2 [Hrun' [Hlog' [Hlen' [Hr' [Hl' He']]]]]]].
    exists w', (evs1 ++ evs2). cbn [run_events]. unfold bind. rewrite Hrun.
    split; [exact Hrun'|]. split; [now rewrite Hlog', Hlog, app_assoc|].
    split; [rewrite length_app; cbn; lia|].
    repeat split; congruence.
Qed.

(** X16: when the events arrive in time order and none arrives before the
    current [viewStartRef], no logged dwell time is negative, and
    [viewStartRef] never runs ahead of the last event. *)
Theorem dwell_is_never_negative (es : list Event) :
  forall (t0 : Z) (w : World),
  viewStartRef w <= t0 ->
  in_time_order t0 es ->
  exists w' evs,
    run_events es w = Ok tt w'
    /\ interactions w' = interactions w ++ evs
    /\ Forall (fun ev => 0 <= timeSpentMs ev) evs
    /\ viewStartRef w' <= last (map event_time es) t0.
Proof.
  induction es as [|e es IH]; intros t0 w Hv Hord.
  - exists w, []. cbn. rewrite app_nil_r. auto 10.
  - destruct Hord as [Ht Hord].
    destruct (deliver_step e w)
      as [w1 [evs1 [Hrun [Hlog [_ [Hdw [Hvs _]]]]]]].
    destruct (IH (event_time e) w1) as [w' [evs2 [Hrun' [Hlog' [Hnn Hlast]]]]];
      [destruct Hvs as [-> | ->]; lia | exact Hord |].
    exists w', (evs1 ++ evs2). cbn [run_events]. unfold bind. rewrite Hrun.
    split; [exact Hrun'|]. split; [now rewrite Hlog', Hlog, app_assoc|]. split.
    + apply Forall_app. split; [|exact Hnn].
      eapply Forall_impl; [|exact Hdw]. cbn. intros ev ->. lia.
    + cbn [map]. now rewrite last_cons_default.
Qed.

Lemma dwell_is_never_negative_witness :
  exists w' evs,
    run_events [Dominant 100 (Some 1); Tap 300 1 tap_like; Dominant 300 None;
                Dominant 450 (Some 9); Dominant 500 (Some 0)] Sample.loaded
    = Ok tt w'
    /\ interactions w' = interactions Sample.loaded ++ evs
    /\ Forall (fun ev => 0 <= timeSpentMs ev) evs
    /\ viewStartRef w'
       <= last (map event_time
                  [Dominant 100 (Some 1); Tap 300 1 tap_like; Dominant 300 None;
                   Dominant 450 (Some 9); Dominant 500 (Some 0)]) 0.
Proof.
  apply (dwell_is_never_negative _ 0 Sample.loaded).
  - cbn. lia.
  - cbn. lia.
Defined.

(** ** The two clock readings of a handler *)

Lemma reset_viewStart_run (t : Z) (w : World) :
  at_time t reset_viewStart w = Ok tt (with_viewStart t (with_clock t w)).
Proof. reflexivity. Qed.

(** When both readings fall in the same instant, the handlers with two
    readings are the handlers run at that instant. *)
Lemma deliver_reads_same_instant (t : Z) (w : World) :
  (forall newIndex,
     at_time t (deliver_reads (DominantAt t t newIndex)) w
     = deliver (Dominant t newIndex) w)
  /\ (forall i u,
        at_time t (deliver_reads (TapAt t t i u)) w = deliver (Tap t i u) w).
Proof.
  split.
  - intros [i|]; [|reflexivity].
    unfold deliver, deliver_reads, onDominantItemChanged,
      handleViewableItemsChanged_reads, handleViewableItemsChanged,
      at_time, bind, gets.
    cbn -[recordViewEnd Z.eqb].
    destruct (currentIndexRef w =? i); cbn -[recordViewEnd]; [reflexivity|].
    rewrite !recordViewEnd_total. cbn.
    destruct (JS.index (restaurants w) (currentIndexRef w)); reflexivity.
  - intros i u.
    destruct u; unfold deliver, deliver_reads, onUserAction, handleLike_reads,
      handleUnlike_reads, handleLike, handleUnlike, at_time, bind, gets;
      cbn -[recordViewEnd]; rewrite !recordViewEnd_total; cbn;
      destruct (JS.index (restaurants w) i); reflexivity.
Qed.

(** One event on a tracker whose current index and named index have items:
    the logged dwell falls short of the advance of [viewStartRef] by at most
    the time between the two readings. *)
Lemma deliver_reads_accounts (feed : list Restaurant) (e : TimedEvent) (w : World) :
  restaurants w = feed ->
  valid_index feed (currentIndexRef w) ->
  timed_valid feed e ->
  exists w' evs,
    deliver_reads e w = Ok tt w'
    /\ interactions w' = interactions w ++ evs
    /\ viewStartRef w' - viewStartRef w - tick e <= total_dwell evs
    /\ total_dwell evs <= viewStartRef w' - viewStartRef w
    /\ restaurants w' = feed
    /\ valid_index feed (currentIndexRef w').
Proof.
  intros Hfeed Hcur [Htick Hval].
  destruct e as [t1 t2 [i|] | t1 t2 i u]; cbn [tick] in Htick; cbn [deliver_reads tick].
  - unfold handleViewableItemsChanged_reads, bind, gets.
    cbn -[recordViewEnd Z.eqb at_time].
    destruct (Z.eqb_spec (currentIndexRef w) i) as [E|E]; cbn -[recordViewEnd at_time].
    + exists w, []. rewrite app_nil_r. cbn. repeat split; auto; lia.
    + rewrite at_time_run, recordViewEnd_total.
      cbn [restaurants currentIndexRef with_clock]. rewrite Hfeed.
      destruct (JS.index feed (currentIndexRef w)) as [r|] eqn:Hr;
        [|now elim Hcur].
      eexists. exists [event_of (with_clock t1 w) r skip].
      split; [reflexivity|]. cbn. repeat split; auto; lia.
  - exists w, []. rewrite app_nil_r. cbn. repeat split; auto; lia.
  - unfold valid_index in Hval. rewrite <- Hfeed in Hval.
    destruct (JS.index (restaurants w) i) as [r|] eqn:Hi; [|now elim Hval].
    destruct u; unfold handleLike_reads, handleUnlike_reads, bind;
      rewrite at_time_run, (recordViewEnd_item _ _ _ r) by exact Hi;
      (eexists; eexists [event_of (with_clock t1 w) r _]);
      (split; [reflexivity|]); cbn; repeat split; auto; lia.
Qed.

Lemma ticks_cons (e : TimedEvent) (es : list TimedEvent) :
  ticks (e :: es) = tick e + ticks es.
Proof. reflexivity. Qed.

(** X17: let the current index and every index the events name have an
    item, and let the clock not run backwards between the two readings of a
    handler.  Then over any stream of reports and taps the logged dwell
    times add up to at most the advance of [viewStartRef], and fall short of
    it by at most the time that passed between the two readings of the
    handlers: no viewing time is counted twice, and the only time dropped is
    the time spent inside the handlers. *)
Theorem viewing_time_is_accounted (es : list TimedEvent) :
  forall (w : World),
  valid_index (restaurants w) (currentIndexRef w) ->
  Forall (timed_valid (restaurants w)) es ->
  exists w' evs,
    run_timed es w = Ok tt w'
    /\ interactions w' = interactions w ++ evs
    /\ viewStartRef w' - viewStartRef w - ticks es <= total_dwell evs
    /\ total_dwell evs <= viewStartRef w' - viewStartRef w.
Proof.
  induction es as [|e es IH]; intros w Hcur Hall.
  - exists w, []. cbn. rewrite app_nil_r. repeat split; lia.
  - apply Forall_cons_iff in Hall as [He Hall].
    destruct (deliver_reads_accounts (restaurants w) e w eq_refl Hcur He)
      as [w1 [evs1 [Hrun [Hlog [Hlo [Hhi [Hfeed Hcur1]]]]]]].
    destruct (IH w1) as [w' [evs2 [Hrun' [Hlog' [Hlo' Hhi']]]]];
      [now rewrite Hfeed | now rewrite Hfeed |].
    exists w', (evs1 ++ evs2). cbn [run_timed]. unfold bind. rewrite Hrun.
    split; [exact Hrun'|]. split; [now rewrite Hlog', Hlog, app_assoc|].
    rewrite total_dwell_app, ticks_cons. split; lia.
Qed.

Lemma viewing_time_is_accounted_witness :
  exists w' evs,
    run_timed [DominantAt 100 101 (Some 1); TapAt 300 300 1 tap_like;
               DominantAt 300 302 None; DominantAt 450 451 (Some 2);
               DominantAt 500 500 (Some 0)] Sample.loaded
    = Ok tt w'
    /\ interactions w' = interactions Sample.loaded ++ evs
    /\ viewStartRef w' - viewStartRef Sample.loaded
       - ticks [DominantAt 100 101 (Some 1); TapAt 300 300 1 tap_like;
                DominantAt 300 302 None; DominantAt 450 451 (Some 2);
                DominantAt 500 500 (Some 0)]
       <= total_dwell evs
    /\ total_dwell evs <= viewStartRef w' - viewStartRef Sample.loaded.
Proof.
  apply (viewing_time_is_accounted _ Sample.loaded).
  - unfold valid_index. cbn. discriminate.
  - repeat constructor; unfold valid_index; cbn; try discriminate; lia.
Defined.

(** With the readings 500 and 501 the like logs a dwell of 500 while the
    clock restarts at 501: the millisecond inside the handler is dropped. *)
Example run_tick_is_dropped :
  exists w',
    deliver_reads (TapAt 500 501 0 tap_like) Sample.loaded = Ok tt w'
    /\ interactions w'
       = [{| placeId := id Sample.r0; action := like; timeSpentMs := 500 |}]
    /\ viewStartRef w' = 501.
Proof. eexists. split; [reflexivity|]. split; reflexivity. Qed.

(** ** Cards and the like control *)

Lemma card_toggle_item (i : Z) (bar : ActionBar) (w : World) (r : Restaurant) :
  JS.index (restaurants w) i = Some r ->
  exists bar',
    card_toggle i bar w
    = Ok bar' (with_viewStart (clock w)
                 (log (event_of w r (if liked bar then unlike else like)) w))
    /\ liked bar' = negb (liked bar)
    /\ List.length (scaleAnim bar')
       = (List.length (scaleAnim bar) + if liked bar then 0 else 1)%nat.
Proof.
  intros Hi. destruct (liked bar) eqn:Hl.
  - rewrite (card_toggle_on i bar w r Hl Hi). eexists. split; [reflexivity|].
    cbn. split; [reflexivity | lia].
  - rewrite (card_toggle_off i bar w r Hl Hi). eexists. split; [reflexivity|].
    cbn. split; [reflexivity|]. rewrite length_app. reflexivity.
Qed.

(** X18: any number of taps on the like control of a card whose index has
    an item return normally and log one event per tap, all for that item,
    like and unlike taking turns from the state the card is in; [liked] ends
    flipped exactly when the number of taps is odd, and one emphasis
    animation has started per like. *)
Theorem toggles_alternate (i : Z) (r : Restaurant) (ts : list Z) :
  forall (bar : ActionBar) (w : World),
  JS.index (restaurants w) i = Some r ->
  exists bar' w' evs,
    run_toggles i ts bar w = Ok bar' w'
    /\ interactions w' = interactions w ++ evs
    /\ map action evs = toggle_actions (liked bar) (List.length ts)
    /\ Forall (fun e => placeId e = id r) evs
    /\ liked bar' = (if Nat.even (List.length ts) then liked bar else negb (liked bar))
    /\ List.length (scaleAnim bar')
       = (List.length (scaleAnim bar) + List.length (filter is_like evs))%nat.
Proof.
  induction ts as [|t ts IH]; intros bar w Hi.
  - exists bar, w, []. cbn. rewrite app_nil_r. repeat split; auto.
  - cbn [run_toggles]. unfold bind. rewrite at_time_run.
    destruct (card_toggle_item i bar (with_clock t w) r Hi) as [bar1 [-> [Hl1 Ha1]]].
    match goal with |- context [run_toggles i ts bar1 ?w1] =>
      destruct (IH bar1 w1 Hi) as [bar' [w' [evs [Hrun [Hlog [Hact [Hid [Hl Ha]]]]]]]]
    end.
    exists bar', w'.
    exists (event_of (with_clock t w) r (if liked bar then unlike else like) :: evs).
    split; [exact Hrun|]. split.
    { rewrite Hlog. cbn. now rewrite <- app_assoc. }
    split.
    { cbn [map toggle_actions List.length]. rewrite Hact, Hl1.
      cbn. reflexivity. }
    split; [constructor; [reflexivity | exact Hid]|]. split.
    { rewrite Hl, Hl1. cbn [List.length]. rewrite Nat.even_succ, <- Nat.negb_even.
      destruct (Nat.even (List.length ts)), (liked bar); reflexivity. }
    rewrite Ha, Ha1. cbn [filter]. unfold is_like at 2. cbn [event_of action].
    destruct (liked bar); cbn [List.length]; lia.
Qed.

Lemma toggles_alternate_witness :
  exists bar' w' evs,
    run_toggles 1 [100; 250; 900] ActionBar_mount Sample.loaded = Ok bar' w'
    /\ interactions w' = interactions Sample.loaded ++ evs
    /\ map action evs = toggle_actions (liked ActionBar_mount) (List.length [100; 250; 900])
    /\ Forall (fun e => placeId e = id Sample.r1) evs
    /\ liked bar'
       = (if Nat.even (List.length [100; 250; 900]) then liked ActionBar_mount
          else negb (liked ActionBar_mount))
    /\ List.length (scaleAnim bar')
       = (List.length (scaleAnim ActionBar_mount) + List.length (filter is_like evs))%nat.
Proof.
  apply (toggles_alternate 1 Sample.r1 [100; 250; 900] ActionBar_mount Sample.loaded).
  reflexivity.
Defined.

Lemma JS_index_cons {A : Type} (x : A) (l : list A) (k : Z) :
  0 <= k -> JS.index (x :: l) (k + 1) = JS.index l k.
Proof.
  intros Hk. unfold JS.index.
  destruct (Z.ltb_spec (k + 1) 0) as [H|_]; [lia|].
  destruct (Z.ltb_spec k 0) as [H|_]; [lia|].
  replace (Z.to_nat (k + 1)) with (S (Z.to_nat k)) by lia. reflexivity.
Qed.

Lemma JS_index_some_nonneg {A : Type} (l : list A) (k : Z) (a : A) :
  JS.index l k = Some a -> 0 <= k.
Proof.
  unfold JS.index. destruct (Z.ltb_spec k 0); [discriminate | lia].
Qed.

Lemma FlatList_cards_index (data : list Restaurant) :
  forall (first : Z) (c : Card),
  In c (FlatList_cards first data) ->
  JS.index data (card_index c - first) = Some (card_restaurant c).
Proof.
  induction data as [|item data IH]; intros first c Hin; [contradiction|].
  destruct Hin as [<- | Hin].
  - cbn [renderItem card_index card_restaurant]. now rewrite Z.sub_diag.
  - specialize (IH _ _ Hin).
    replace (card_index c - first) with ((card_index c - (first + 1)) + 1) by lia.
    rewrite JS_index_cons; [exact IH|]. exact (JS_index_some_nonneg _ _ _ IH).
Qed.

(** The handlers of the current render are the handlers of the state. *)
Lemma card_toggle_of_current (c : Card) (bar : ActionBar) (w : World) :
  card_toggle_of (restaurants w) c bar w = card_toggle (card_index c) bar w.
Proof.
  unfold card_toggle_of, card_toggle, handleToggleLike.
  destruct (liked bar); reflexivity.
Qed.

(** X19: a card keeps the handlers of the render that built it.  A tap on
    the like control of a card built over an earlier feed, whatever the feed
    is now (shorter, empty, or with another restaurant at that index),
    returns normally, flips [liked], logs exactly one event with the id of
    the restaurant the card shows and the dwell since the shared
    [viewStartRef], and restarts the clock. *)
Theorem stale_card_toggle
    (captured : list Restaurant) (c : Card) (bar : ActionBar) (w : World) :
  In c (FlatList_cards 0 captured) ->
  exists bar' w',
    card_toggle_of captured c bar w = Ok bar' w'
    /\ liked bar' = negb (liked bar)
    /\ interactions w'
       = interactions w
         ++ [{| placeId := id (card_restaurant c);
                action := if liked bar then unlike else like;
                timeSpentMs := clock w - viewStartRef w |}]
    /\ viewStartRef w' = clock w
    /\ restaurants w' = restaurants w
    /\ currentIndexRef w' = currentIndexRef w.
Proof.
  intros Hin. apply FlatList_cards_index in Hin. rewrite Z.sub_0_r in Hin.
  unfold card_toggle_of, handleToggleLike, handleLike_of, handleUnlike_of,
    recordViewEnd_of, bind.
  rewrite Hin. destruct (liked bar); cbn; do 2 eexists;
    (split; [reflexivity|]); cbn; auto 10.
Qed.

Lemma stale_card_toggle_witness :
  exists bar' w',
    card_toggle_of Sample.feed (renderItem Sample.r2 2) ActionBar_mount
      (with_clock 700 (with_restaurants [Sample.r0] Sample.loaded))
    = Ok bar' w'
    /\ liked bar' = negb (liked ActionBar_mount)
    /\ interactions w'
       = interactions (with_clock 700 (with_restaurants [Sample.r0] Sample.loaded))
         ++ [{| placeId := id (card_restaurant (renderItem Sample.r2 2));
                action := if liked ActionBar_mount then unlike else like;
                timeSpentMs :=
                  clock (with_clock 700 (with_restaurants [Sample.r0] Sample.loaded))
                  - viewStartRef (with_clock 700 (with_restaurants [Sample.r0] Sample.loaded)) |}]
    /\ viewStartRef w'
       = clock (with_clock 700 (with_restaurants [Sample.r0] Sample.loaded))
    /\ restaurants w'
       = restaurants (with_clock 700 (with_restaurants [Sample.r0] Sample.loaded))
    /\ currentIndexRef w'
       = currentIndexRef (with_clock 700 (with_restaurants [Sample.r0] Sample.loaded)).
Proof.
  apply (stale_card_toggle Sample.feed (renderItem Sample.r2 2) ActionBar_mount
           (with_clock 700 (with_restaurants [Sample.r0] Sample.loaded))).
  cbn. auto.
Defined.

Lemma render_feed_view (w : World) (d : list Restaurant) :
  render w = FeedView d -> restaurants w = d.
Proof.
  unfold render.
  destruct (loading w && _); [discriminate|].
  destruct (JS.truthy_string (error w) && _); [discriminate|].
  destruct (_ =? 0); [discriminate|].
  intros H. now injection H.
Qed.

(** X20: every card of the rendered list carries an index at which the feed
    holds the very restaurant the card shows; so a first tap on its like
    control, at any instant, logs exactly one like event with that
    restaurant's id and the dwell since [viewStartRef], and sets [liked]. *)
Theorem rendered_card_like (c : Card) (t : Z) (bar : ActionBar) (w : World) :
  In c (cards w) ->
  liked bar = false ->
  JS.index (restaurants w) (card_index c) = Some (card_restaurant c)
  /\ exists bar' w',
       at_time t (card_toggle (card_index c) bar) w = Ok bar' w'
       /\ liked bar' = true
       /\ interactions w'
          = interactions w
            ++ [{| placeId := id (card_restaurant c); action := like;
                   timeSpentMs := t - viewStartRef w |}].
Proof.
  intros Hin Hl.
  assert (Hi : JS.index (restaurants w) (card_index c) = Some (card_restaurant c)).
  { unfold cards in Hin. destruct (render w) as [| | |data] eqn:Hr;
      try contradiction.
    apply render_feed_view in Hr. rewrite Hr.
    apply FlatList_cards_index in Hin. now rewrite Z.sub_0_r in Hin. }
  split; [exact Hi|].
  rewrite at_time_run.
  rewrite (card_toggle_off _ bar (with_clock t w) (card_restaurant c) Hl Hi).
  do 2 eexists. split; [reflexivity|]. split; reflexivity.
Qed.

Lemma rendered_card_like_witness :
  JS.index (restaurants Sample.loaded) 2 = Some Sample.r2
  /\ exists bar' w',
       at_time 700 (card_toggle 2 ActionBar_mount) Sample.loaded = Ok bar' w'
       /\ liked bar' = true
       /\ interactions w'
          = interactions Sample.loaded
            ++ [{| placeId := id Sample.r2; action := like;
                   timeSpentMs := 700 - viewStartRef Sample.loaded |}].
Proof.
  apply (rendered_card_like (renderItem Sample.r2 2) 700 ActionBar_mount Sample.loaded).
  - cbn. auto.
  - reflexivity.
Defined.

(** ** The sink over a whole log *)

(** X21: delivering a log of calls to the sink one after the other never
    rejects.  Without a session user the table is left as it was, however
    long the log; with one, the table grows by one row per call, in call
    order, each with the user's id and the call's place id, action and time
    spent, and the rows already there and the session are kept. *)
Theorem record_all_spec (calls : list Interaction) :
  forall sb : Lib.Supabase,
  record_all calls sb
  = inr match Lib.session_user (Lib.session sb) with
        | None => sb
        | Some u =>
            {| Lib.session := Lib.session sb;
               Lib.restaurant_interactions :=
                 Lib.restaurant_interactions sb
                 ++ map (row_of (Lib.user_id u)) calls |}
        end.
Proof.
  induction calls as [|c calls IH]; intros sb; cbn [record_all].
  - destruct sb as [s rows]. cbn.
    destruct (Lib.session_user s); [now rewrite app_nil_r | reflexivity].
  - unfold Lib.recordInteraction, Lib.prop_user_id.
    destruct (Lib.session_user (Lib.session sb)) as [u|] eqn:Hu; cbn.
    + rewrite IH. cbn. rewrite Hu. now rewrite <- app_assoc.
    + rewrite IH. now rewrite Hu.
Qed.
